(** * The off-chain withdrawal pipeline of private-treasury

    A shallow embedding of the orchestration script (the withdrawal
    script of the repository): the ledger reader [getDepositHistory], the
    ownership scanner [checkLeafOwnership], the accumulator replay
    [reconstructMerkleTree], the proof builder [genGroth16Proof], the local
    verifier [proveSanityCheck], the submitter [sendProofTx] and the entry
    point [main].

    The script is a sequence of calls to external collaborators (the
    contract, the proving engine, the file system, the console).  A run is
    modelled as a finite program tree [Prog] whose nodes are those calls;
    [run] interprets the tree against an environment [Env] that answers each
    call, threading the external ledger and recording the trace.

    The statements that run when the module is loaded (reading the
    configuration, building the wallet and the contract object) make no call
    to the contract and are not part of the model; the configured secret is
    a parameter. *)

From Stdlib Require Import String ZArith Bool Arith Lia PeanoNat List Sorted.
Import ListNotations.

Set Implicit Arguments.
Local Open Scope string_scope.
Local Open Scope nat_scope.
Local Open Scope list_scope.

(** ** JavaScript results *)

(** An exception object: its [name] and [message]. *)
Record JsError : Type := mkError { errName : string; errMessage : string }.

(** What a call evaluates to: a value, or a thrown exception. *)
Inductive JsResult (A : Type) : Type :=
| Ok (a : A)
| Thrown (e : JsError).
Arguments Thrown {A} e.

(** How a run of a program ends: it returns a value, an exception escapes,
    or the process exits with a code. *)
Inductive Outcome (A : Type) : Type :=
| Returned (a : A)
| Threw (e : JsError)
| Exited (code : nat).
Arguments Threw {A} e.
Arguments Exited {A} code.

(** [arr[i]] where [i] itself may be [undefined]: reading an array at a
    missing or out-of-range index gives [undefined]. *)
Definition jsIndex {A : Type} (arr : list A) (i : option nat) : option A :=
  match i with
  | Some n => nth_error arr n
  | None => None
  end.

(** [arr.reduce(cb, init)]: the callback receives the accumulator, the
    element and the element's index, from index 0 upwards. *)
Fixpoint reduceFrom {A B : Type} (cb : B -> A -> nat -> B) (arr : list A)
  (i : nat) (acc : B) : B :=
  match arr with
  | [] => acc
  | x :: rest => reduceFrom cb rest (S i) (cb acc x i)
  end.

Definition reduce {A B : Type} (cb : B -> A -> nat -> B) (arr : list A)
  (init : B) : B :=
  reduceFrom cb arr 0 init.

(** The object [genMerklePath] returns, as the script reads it: the
    sibling hashes ([pathElements]) and the branch selectors ([indices]),
    one of each per level, from the leaves upwards. *)
Record MerklePath : Type := mkPath {
  pathElements : list Z;
  indices : list nat
}.

(** [Groth16ProofCalldata]: the proof as the three-part group-element
    layout [a], [b], [c] and the public signals [input]; the fields carry
    the prefix [cd_]. *)
Record Groth16ProofCalldata : Type := mkCalldata {
  cd_a : list Z;
  cd_b : list (list Z);
  cd_c : list Z;
  cd_input : list Z
}.

(** ** Collaborators the script imports

    [Leaf], [Utils] and the types of [./types] are modules of the repository
    whose text is not at hand; [circomlibjs], [snarkjs], [babyjubjub] and
    [maci-crypto] are packages.  Their data types and pure
    methods are the fields of [Externals]; every definition below is stated
    for an arbitrary instance. *)
Class Externals : Type := {
  (** the [lf] argument of a [NewLeaf] event *)
  SolLeaf : Type;
  (** the [Leaf] class *)
  Leaf : Type;
  (** the hasher built by [buildPoseidon] *)
  Poseidon : Type;
  (** [PrivateKey] of babyjubjub *)
  PrivateKey : Type;
  (** base-10 rendering of a leaf field, as [lf.base10()] returns them *)
  Fld : Type;
  Groth16Proof : Type;
  WithdrawPubSignals : Type;
  (** the parsed verification key *)
  VKey : Type;
  (** what [privateTreasury.withdraw] resolves to *)
  TxResult : Type;
  (** [Leaf.fromSol] *)
  fromSol : SolLeaf -> Leaf;
  (** [lf.poseidonHash(poseidon)] *)
  poseidonHash : Leaf -> Poseidon -> Z;
  (** [new PrivateKey(s)] *)
  newPrivateKey : string -> PrivateKey;
  (** [lf.checkQDerivation(key)]: the ownership relation P * alpha = Q *)
  checkQDerivation : Leaf -> PrivateKey -> bool;
  (** [lf.base10()], as the triple of its fields v, P, Q *)
  base10 : Leaf -> Fld * Fld * Fld;
  (** the two-to-one hash of the accumulator *)
  hashLeftRight : Z -> Z -> Z;
  (** [NOTHING_UP_MY_SLEEVE] of maci-crypto *)
  NOTHING_UP_MY_SLEEVE : Z;
  (** [JSON.parse] of the verification key file *)
  parseVKey : string -> JsResult VKey;
  (** [Utils.exportCallDataGroth16] *)
  exportCallDataGroth16 :
    Groth16Proof -> WithdrawPubSignals -> JsResult Groth16ProofCalldata;
  (** what [tree.genMerklePath] does when its argument is not the index of
      an inserted leaf (given the inserted leaves and the argument); the
      specification leaves it undefined *)
  genPathUninserted : list Z -> option nat -> JsResult MerklePath;
  (** [process.env.TREASURY_PRIVKEY] *)
  TREASURY_PRIVKEY : string;
  (** the state of the external ledger contract *)
  Ledger : Type
}.

(** ** Constants of the script *)

Definition LEAF_IDX : nat := 1.
Definition TREE_DEPTH : nat := 32.
Definition PROV_KEY : string := "../circuits/verif-manager.zkey".
Definition VERIF_KEY : string := "../circuits/verif-manager.vkey.json".
Definition WASM : string := "../circuits/verif-manager.wasm".

(** ** The accumulator *)

Section Accumulator.
Context {X : Externals}.

(** Modelled from the spec: the class [IncrementalQuinTree] of maci-crypto
    is not among the sources.  The state is the fixed depth, the empty
    value, the branching factor and the ordered sequence of inserted leaf
    hashes; the root and the inclusion paths are derived from it.  The
    derivation below is the one for the branching factor the script
    constructs, two. *)
Record IncrementalQuinTree : Type := mkTree {
  depth : nat;
  zeroValue : Z;
  leavesPerNode : nat;
  leaves : list Z
}.

(** Modelled from the spec: [new IncrementalQuinTree(depth, zero, k)], an
    accumulator with no leaf inserted. *)
Definition newTree (d : nat) (z : Z) (k : nat) : IncrementalQuinTree :=
  {| depth := d; zeroValue := z; leavesPerNode := k; leaves := [] |}.

(** Modelled from the spec: [insert] appends one leaf; leaves are placed
    left to right from position 0. *)
Definition insert (t : IncrementalQuinTree) (lh : Z) : IncrementalQuinTree :=
  {| depth := depth t; zeroValue := zeroValue t;
     leavesPerNode := leavesPerNode t; leaves := leaves t ++ [lh] |}.

(** Modelled from the spec: the nodes one level above [level].  Node [j]
    hashes positions [2j] and [2j+1]; an unfilled right position reads the
    empty value [z] of the level below. *)
Fixpoint hashLevel (z : Z) (level : list Z) : list Z :=
  match level with
  | [] => []
  | [a] => [hashLeftRight a z]
  | a :: b :: rest => hashLeftRight a b :: hashLevel z rest
  end.

(** Modelled from the spec: the root of a tree of depth [d] whose lowest
    level is [level]; [z] is the value of an unfilled position of that
    level, so one level up an empty subtree is worth [hashLeftRight z z]. *)
Fixpoint merkleRoot (d : nat) (z : Z) (level : list Z) : Z :=
  match d with
  | O => nth 0 level z
  | S d' => merkleRoot d' (hashLeftRight z z) (hashLevel z level)
  end.

(** Modelled from the spec: [root()]. *)
Definition root (t : IncrementalQuinTree) : Z :=
  merkleRoot (depth t) (zeroValue t) (leaves t).

(** Modelled from the spec: the position next to [i] under the same parent
    in [IncrementalQuinTree], whose hash is the sibling hash of the path. *)
Definition sibling (i : nat) : nat :=
  if Nat.even i then S i else Nat.pred i.

(** Modelled from the spec: the inclusion path of position [i], one
    (sibling hash, branch selector) pair per level; the selector is the
    position of the node within its parent. *)
Fixpoint inclusionPath (d : nat) (z : Z) (level : list Z) (i : nat)
  : list (Z * nat) :=
  match d with
  | O => []
  | S d' =>
      (nth (sibling i) level z, i mod 2)
        :: inclusionPath d' (hashLeftRight z z) (hashLevel z level) (i / 2)
  end.

(** Modelled from the spec: [genPath(index)].  For the index of an
    inserted leaf it is the inclusion path; otherwise the behaviour is the
    library's own, [genPathUninserted]. *)
Definition genMerklePath (t : IncrementalQuinTree) (index : option nat)
  : JsResult MerklePath :=
  match index with
  | Some i =>
      if i <? length (leaves t) then
        let p := inclusionPath (depth t) (zeroValue t) (leaves t) i in
        Ok {| pathElements := map fst p; indices := map snd p |}
      else genPathUninserted (leaves t) index
  | None => genPathUninserted (leaves t) index
  end.

(** Modelled from the spec: leaf-to-root recomputation.  At each level the
    running hash is the left child when the selector is 0 and the right
    child otherwise. *)
Fixpoint recomputeRoot (cur : Z) (path : list (Z * nat)) : Z :=
  match path with
  | [] => cur
  | (sib, sel) :: rest =>
      recomputeRoot
        (if sel =? 0 then hashLeftRight cur sib else hashLeftRight sib cur)
        rest
  end.

(** Modelled from the spec: the recomputation from a leaf hash along the
    object [genMerklePath] of [IncrementalQuinTree] returns. *)
Definition recomputeFromPath (leaf : Z) (p : MerklePath) : Z :=
  recomputeRoot leaf (combine (pathElements p) (indices p)).

(** Modelled from the spec: the root of the complete binary tree of depth
    [d] over the positions [off], ..., [off + 2 ^ d - 1] of a position
    function [f], by the textbook recursion on the two halves.  It is the
    reference the root of [IncrementalQuinTree] is compared with. *)
Fixpoint subtreeRoot (d : nat) (f : nat -> Z) (off : nat) : Z :=
  match d with
  | O => f off
  | S d' =>
      hashLeftRight (subtreeRoot d' f off) (subtreeRoot d' f (off + 2 ^ d'))
  end.

(** Modelled from the spec: the positions of [IncrementalQuinTree], a leaf
    sequence in which every unfilled position holds the empty value. *)
Definition padded (z : Z) (level : list Z) (i : nat) : Z := nth i level z.

End Accumulator.

(** ** Programs over the external calls *)

Section Script.
Context {X : Externals}.

(** The witness object handed to [groth16.fullProve]; the fields are those
    of the object literal, with the prefix [w_].  [w_root] is the integer
    that the decimal string [root.toString()] denotes, and [w_leafIndex] is
    [None] when the script passes [undefined]. *)
Record ProverInput : Type := mkInput {
  w_v : Fld;
  w_root : Z;
  w_leafIndex : option nat;
  w_P : Fld;
  w_Q : Fld;
  w_treasuryPriv : string;
  w_pathIndex : list nat;
  w_pathElements : list Z
}.

(** An argument of [console.log]. *)
Inductive LogArg : Type :=
| LStr (s : string)
(** a template literal with one numeric hole *)
| LTpl (before : string) (n : nat) (after : string)
| LBig (z : Z)
| LBool (b : bool)
| LEther (wei : Z)
| LProof (prf : Groth16Proof)
| LSigs (pubSigs : WithdrawPubSignals)
| LCalldata (cd : Groth16ProofCalldata)
| LTx (r : TxResult).

(** The calls that leave the script. *)
Inductive Cmd : Type :=
(** [buildPoseidon()] *)
| BuildPoseidon
(** [privateTreasury.queryFilter(privateTreasury.filters.NewLeaf())] *)
| QueryFilterNewLeaf
(** [privateTreasury.root()] *)
| ContractRoot
(** [privateTreasury.withdraw(leafIdx, a, b, c, input)] *)
| ContractWithdraw (leafIdx : nat) (a : list Z) (b : list (list Z))
    (c : list Z) (input : list Z)
(** [signer.getBalance()] *)
| SignerGetBalance
(** [groth16.fullProve(input, wasm, zkey)] *)
| Groth16FullProve (input : ProverInput) (wasm zkey : string)
(** [groth16.verify(vKey, pubSigs, prf)] *)
| Groth16Verify (vKey : VKey) (pubSigs : WithdrawPubSignals)
    (prf : Groth16Proof)
(** [fs.readFileSync(path, encoding)] *)
| ReadFileSync (path encoding : string)
(** [tree.genMerklePath(index)] *)
| GenMerklePath (tree : IncrementalQuinTree) (index : option nat).

(** The type of the value each call resolves to.  The event query resolves
    to the [lf] arguments of the emitted events, in the order the provider
    lists them; [root()] resolves to the integer [BigInt] makes of it. *)
Definition Resp (c : Cmd) : Type :=
  match c with
  | BuildPoseidon => Poseidon
  | QueryFilterNewLeaf => list SolLeaf
  | ContractRoot => Z
  | ContractWithdraw _ _ _ _ _ => TxResult
  | SignerGetBalance => Z
  | Groth16FullProve _ _ _ => (Groth16Proof * WithdrawPubSignals)%type
  | Groth16Verify _ _ _ => bool
  | ReadFileSync _ _ => string
  | GenMerklePath _ _ => MerklePath
  end.

(** A program: returns, throws, exits the process, logs, or makes a call
    and continues with its value. *)
Inductive Prog (A : Type) : Type :=
| Ret (a : A)
| Throw (e : JsError)
| Exit (code : nat)
| Log (args : list LogArg) (k : Prog A)
| Call (c : Cmd) (k : Resp c -> Prog A).
Arguments Throw {A} e.
Arguments Exit {A} code.

Fixpoint bind {A B : Type} (p : Prog A) (f : A -> Prog B) : Prog B :=
  match p with
  | Ret a => f a
  | Throw e => Throw e
  | Exit n => Exit n
  | Log args k => Log args (bind k f)
  | Call c k => Call c (fun v => bind (k v) f)
  end.

Definition log (args : list LogArg) : Prog unit := Log args (Ret tt).
Definition call (c : Cmd) : Prog (Resp c) := Call c (fun v => Ret v).

(** A synchronous call that may throw. *)
Definition lift {A : Type} (r : JsResult A) : Prog A :=
  match r with
  | Ok a => Ret a
  | Thrown e => Throw e
  end.

(** ** Running a program *)

(** The environment: how the outside answers a call in a given ledger
    state, and what an accepted withdrawal does to the ledger. *)
Record Env : Type := mkEnv {
  reply : forall c : Cmd, Ledger -> JsResult (Resp c);
  settle : Ledger -> nat -> list Z -> list (list Z) -> list Z -> list Z
           -> Ledger
}.

(** The answer to a call.  The accumulator is local: [genMerklePath] is
    answered by the accumulator itself, everything else by the
    environment. *)
Definition answer (env : Env) (c : Cmd) (l : Ledger) : JsResult (Resp c) :=
  match c as c0 return JsResult (Resp c0) with
  | GenMerklePath t i => genMerklePath t i
  | c0 => reply env c0 l
  end.

(** The ledger after a call.  [queryFilter] and [root] are views;
    [withdraw] is the one state-mutating entrypoint, and a rejected
    transaction changes nothing. *)
Definition effect (env : Env) (c : Cmd) (r : JsResult (Resp c))
  (l : Ledger) : Ledger :=
  match c, r with
  | ContractWithdraw i a b c' input, Ok _ => settle env l i a b c' input
  | _, _ => l
  end.

Inductive Event : Type :=
| EvLog (args : list LogArg)
| EvCall (c : Cmd) (r : JsResult (Resp c)).

Record RunResult (A : Type) : Type := mkRun {
  outcome : Outcome A;
  ledgerAfter : Ledger;
  trace : list Event
}.

Definition after {A : Type} (ev : Event) (r : RunResult A) : RunResult A :=
  {| outcome := outcome r; ledgerAfter := ledgerAfter r;
     trace := ev :: trace r |}.

Fixpoint run {A : Type} (env : Env) (p : Prog A) (l : Ledger)
  : RunResult A :=
  match p with
  | Ret a => {| outcome := Returned a; ledgerAfter := l; trace := [] |}
  | Throw e => {| outcome := Threw e; ledgerAfter := l; trace := [] |}
  | Exit n => {| outcome := Exited n; ledgerAfter := l; trace := [] |}
  | Log args k => after (EvLog args) (run env k l)
  | Call c k =>
      let r := answer env c l in
      let l' := effect env c r l in
      match r with
      | Ok v => after (EvCall c r) (run env (k v) l')
      | Thrown e =>
          {| outcome := Threw e; ledgerAfter := l'; trace := [EvCall c r] |}
      end
  end.

End Script.

Arguments Throw {X A} e.
Arguments Exit {X A} code.

Declare Scope prog_scope.
Delimit Scope prog_scope with prog.
Notation "x <- p ;; k" := (bind p (fun x => k))
  (at level 61, p at next level, right associativity) : prog_scope.
Notation "' pat <- p ;; k" := (bind p (fun x => match x with pat => k end))
  (at level 61, pat pattern, p at next level, right associativity) : prog_scope.
Notation "p ;; k" := (bind p (fun _ => k))
  (at level 61, right associativity) : prog_scope.

(** ** The script *)

Section Pipeline.
Context {X : Externals}.
Local Open Scope prog_scope.

(** Queries the contract for all leaves ever stored, through the emitted
    [NewLeaf] events, and hashes them. *)
Definition getDepositHistory (poseidon : Poseidon)
  : Prog (list Leaf * list Z) :=
  log [LStr "== Fetching deposit history"];;
  newLeafEvents <- call QueryFilterNewLeaf;;
  let leafHistory := map fromSol newLeafEvents in
  let leafHashes := map (fun lf => poseidonHash lf poseidon) leafHistory in
  log [LTpl "- Retrieved " (length leafHashes) " leaves"];;
  log [LStr "=="];;
  Ret (leafHistory, leafHashes).

(** The callback of the ownership scan: [a.push(i)] when the leaf is
    owned. *)
Definition ownedStep (a : list nat) (lf : Leaf) (i : nat) : list nat :=
  let isOwned := checkQDerivation lf (newPrivateKey TREASURY_PRIVKEY) in
  if isOwned then a ++ [i] else a.

(** Finds the indices of the owned leaves. *)
Definition checkLeafOwnership (leafHistory : list Leaf) : Prog (list nat) :=
  log [LStr "== Checking leaves for ownership"];;
  let owned := reduce ownedStep leafHistory [] in
  log [LTpl "- Found " (length owned) " leaves recoverable by the privKey."];;
  log [LStr "=="];;
  Ret owned.

(** Generates the proof.  [lf] and [lfIdx] are [undefined] when the caller
    indexed past the end of an array; [lf.base10()] then throws. *)
Definition genGroth16Proof (lf : option Leaf) (lfIdx : option nat)
  (root : Z) (treasuryPriv : string) (inclusionProof : MerklePath)
  : Prog (Groth16Proof * WithdrawPubSignals) :=
  log [LStr "== Generating proof"];;
  match lf with
  | None =>
      Throw (mkError "TypeError"
               "Cannot read properties of undefined (reading 'base10')")
  | Some lf =>
      let '(v, P, Q) := base10 lf in
      r <- call (Groth16FullProve
                   {| w_v := v;
                      w_root := root;
                      w_leafIndex := lfIdx;
                      w_P := P;
                      w_Q := Q;
                      w_treasuryPriv := treasuryPriv;
                      w_pathIndex := indices inclusionProof;
                      w_pathElements := pathElements inclusionProof |}
                   WASM PROV_KEY);;
      log [LStr "- Success"];;
      log [LStr "=="];;
      Ret r
  end.

(** Verifies the proof client-side. *)
Definition proveSanityCheck (prf : Groth16Proof)
  (pubSigs : WithdrawPubSignals) : Prog unit :=
  log [LStr "== Running sanity check, verifying proof client-side"];;
  log [LStr "- Proof:"; LProof prf];;
  log [LStr "- Public Signals:"; LSigs pubSigs];;
  text <- call (ReadFileSync VERIF_KEY "utf8");;
  vKey <- lift (parseVKey text);;
  res <- call (Groth16Verify vKey pubSigs prf);;
  (if res : bool
   then log [LStr "- Verification OK"]
   else log [LStr "- Invalid proof"]);;
  log [LStr "=="].

(** Posts the proof on-chain and logs the manager's balance before and
    after. *)
Definition sendProofTx (prf : Groth16Proof) (pubSigs : WithdrawPubSignals)
  : Prog unit :=
  log [LStr "== Sending tx with withdrawal proof"];;
  before <- call SignerGetBalance;;
  log [LStr "Manager balance BEFORE:"; LEther before];;
  formattedProof <- lift (exportCallDataGroth16 prf pubSigs);;
  log [LStr "Proof:"; LCalldata formattedProof];;
  result <- call (ContractWithdraw
                    LEAF_IDX
                    (cd_a formattedProof)
                    (cd_b formattedProof)
                    (cd_c formattedProof)
                    (cd_input formattedProof));;
  log [LTx result];;
  afterwards <- call SignerGetBalance;;
  log [LStr "Manager balance AFTER:"; LEther afterwards];;
  log [LStr "=="].

(** The accumulator after the replay: a new tree of depth [TREE_DEPTH]
    over [NOTHING_UP_MY_SLEEVE] with two leaves per node, and every leaf
    hash inserted in order. *)
Definition replay (leafHashes : list Z) : IncrementalQuinTree :=
  fold_left insert leafHashes
    (newTree TREE_DEPTH NOTHING_UP_MY_SLEEVE 2).

(** Reconstructs the Merkle tree of deposits client side. *)
Definition reconstructMerkleTree (leafHashes : list Z)
  : Prog IncrementalQuinTree :=
  log [LStr "== Reconstructing Merkle tree"];;
  let tree := replay leafHashes in
  log [LStr "- Root:"; LBig (root tree)];;
  onChain <- call ContractRoot;;
  log [LStr "- Same as root stored on contract?";
       LBool (root tree =? onChain)%Z];;
  log [LStr "=="];;
  Ret tree.

(** The entry point.  The call of [sendProofTx] is commented out in the
    script, so it is not part of the program. *)
Definition main : Prog unit :=
  poseidon <- call BuildPoseidon;;
  ' (leafHistory, leafHashes) <- getDepositHistory poseidon;;
  ownedLeaves <- checkLeafOwnership leafHistory;;
  tree <- reconstructMerkleTree leafHashes;;
  merkleProof <- call (GenMerklePath tree (nth_error ownedLeaves LEAF_IDX));;
  ' (proof, publicSignals) <-
    genGroth16Proof
      (jsIndex leafHistory (nth_error ownedLeaves LEAF_IDX))
      (nth_error ownedLeaves LEAF_IDX)
      (root tree)
      TREASURY_PRIVKEY
      merkleProof;;
  proveSanityCheck proof publicSignals;;
  Exit 0.

End Pipeline.

(** ** Observations on traces and programs *)

Section Observations.
Context {X : Externals}.

(** The calls addressed to the contract [privateTreasury]. *)
Definition contractCall (c : Cmd) : bool :=
  match c with
  | QueryFilterNewLeaf | ContractRoot | ContractWithdraw _ _ _ _ _ => true
  | _ => false
  end.

(** The contract calls that are queries. *)
Definition readOnlyQuery (c : Cmd) : bool :=
  match c with
  | QueryFilterNewLeaf | ContractRoot => true
  | _ => false
  end.

(** The calls that only [sendProofTx] makes. *)
Definition submitterCall (c : Cmd) : bool :=
  match c with
  | ContractWithdraw _ _ _ _ _ | SignerGetBalance => true
  | _ => false
  end.

(** The state-mutating entrypoint. *)
Definition withdrawCall (c : Cmd) : bool :=
  match c with
  | ContractWithdraw _ _ _ _ _ => true
  | _ => false
  end.

Definition isWithdraw (ev : Event) : bool :=
  match ev with
  | EvCall c _ => withdrawCall c
  | EvLog _ => false
  end.

Definition isFullProve (ev : Event) : bool :=
  match ev with
  | EvCall (Groth16FullProve _ _ _) _ => true
  | _ => false
  end.

Definition isGenMerklePath (ev : Event) : bool :=
  match ev with
  | EvCall (GenMerklePath _ _) _ => true
  | _ => false
  end.

(** A local verification that answered [false]. *)
Definition isFailedVerify (ev : Event) : bool :=
  match ev with
  | EvCall (Groth16Verify _ _ _) (Ok false) => true
  | _ => false
  end.

(** The leaf indices handed to the proving engine, in order. *)
Definition provedIndices (t : list Event) : list (option nat) :=
  flat_map (fun ev =>
              match ev with
              | EvCall (Groth16FullProve input _ _) _ => [w_leafIndex input]
              | _ => []
              end) t.

(** The roots handed to the proving engine, in order. *)
Definition provedRoots (t : list Event) : list Z :=
  flat_map (fun ev =>
              match ev with
              | EvCall (Groth16FullProve input _ _) _ => [w_root input]
              | _ => []
              end) t.

(** The leaf indices passed to [withdraw], in order. *)
Definition withdrawnIndices (t : list Event) : list nat :=
  flat_map (fun ev =>
              match ev with
              | EvCall (ContractWithdraw i _ _ _ _) _ => [i]
              | _ => []
              end) t.


(** The calls of the local verifier. *)
Definition verifierCall (c : Cmd) : Prop :=
  match c with
  | ReadFileSync _ _ | Groth16Verify _ _ _ => True
  | _ => False
  end.

(** The exception of reading a property of [undefined]. *)
Definition undefinedBase10 : JsError :=
  mkError "TypeError"
    "Cannot read properties of undefined (reading 'base10')".

(** The indices for which [genMerklePath] was requested, in order. *)
Definition requestedPaths (t : list Event) : list (option nat) :=
  flat_map (fun ev =>
              match ev with
              | EvCall (GenMerklePath _ i) _ => [i]
              | _ => []
              end) t.

(** The exception of an outcome, if one escaped. *)
Definition thrownName {A : Type} (o : Outcome A) : option string :=
  match o with
  | Threw e => Some (errName e)
  | _ => None
  end.

(** Every call a program can make, whatever the answers, satisfies [P]. *)
Fixpoint callsIn {A : Type} (P : Cmd -> Prop) (p : Prog A) : Prop :=
  match p with
  | Ret _ | Throw _ | Exit _ => True
  | Log _ k => callsIn P k
  | Call c k => P c /\ forall v, callsIn P (k v)
  end.

(** The calls of a trace satisfy [P]. *)
Definition callsOf (P : Cmd -> Prop) (t : list Event) : Prop :=
  Forall (fun ev => match ev with
                    | EvCall c _ => P c
                    | EvLog _ => True
                    end) t.

(** Sequencing of runs: the second run starts in the ledger the first one
    left, unless the first one threw or exited. *)
Definition andThen {A B : Type} (r : RunResult A)
  (f : A -> Ledger -> RunResult B) : RunResult B :=
  match outcome r with
  | Returned a =>
      let r' := f a (ledgerAfter r) in
      {| outcome := outcome r'; ledgerAfter := ledgerAfter r';
         trace := trace r ++ trace r' |}
  | Threw e =>
      {| outcome := Threw e; ledgerAfter := ledgerAfter r;
         trace := trace r |}
  | Exited n =>
      {| outcome := Exited n; ledgerAfter := ledgerAfter r;
         trace := trace r |}
  end.

(** The leaf hashes the ledger reader derives from the emitted leaves. *)
Definition hashesOf (poseidon : Poseidon) (emitted : list SolLeaf) : list Z :=
  map (fun lf => poseidonHash lf poseidon) (map fromSol emitted).

(** The ownership relation of the scanner for the configured secret. *)
Definition ownedBy (lf : Leaf) : bool :=
  checkQDerivation lf (newPrivateKey TREASURY_PRIVKEY).

(** A call that is not one of the submitter's. *)
Definition offSubmitter (c : Cmd) : Prop := submitterCall c = false.

(** The statements of [main] that follow the replay of the accumulator:
    path generation, proof generation, local verification, exit. *)
Definition afterReplay (leafHistory : list Leaf) (ownedLeaves : list nat)
  (tree : IncrementalQuinTree) : Prog unit :=
  (merkleProof <- call (GenMerklePath tree (nth_error ownedLeaves LEAF_IDX));;
   ' (proof, publicSignals) <-
     genGroth16Proof
       (jsIndex leafHistory (nth_error ownedLeaves LEAF_IDX))
       (nth_error ownedLeaves LEAF_IDX)
       (root tree)
       TREASURY_PRIVKEY
       merkleProof;;
   proveSanityCheck proof publicSignals;;
   Exit 0)%prog.

(** The positions of the owned leaves of [history], counted from [i]. *)
Fixpoint ownedFrom (history : list Leaf) (i : nat) : list nat :=
  match history with
  | [] => []
  | lf :: rest =>
      if ownedBy lf then i :: ownedFrom rest (S i) else ownedFrom rest (S i)
  end.

End Observations.

(** ** A concrete instance

    Small integer stand-ins for the collaborators, on which the script can
    be evaluated: a deposit is the triple (P, Q, v), it is owned when
    Q = P * alpha for the scalar alpha read from the configured key, and the
    hashes are affine maps modulo a prime. *)

Module Demo.

Record DemoLedger : Type := mkLedger {
  deposits : list (Z * Z * Z);
  storedRoot : Z;
  payouts : list nat
}.

Definition demoHash (a b : Z) : Z := ((3 * a + 5 * b + 7) mod 1000003)%Z.

Definition demoX : Externals := {|
  SolLeaf := Z * Z * Z;
  Leaf := Z * Z * Z;
  Poseidon := unit;
  PrivateKey := Z;
  Fld := Z;
  Groth16Proof := Z;
  WithdrawPubSignals := list Z;
  VKey := string;
  TxResult := unit;
  fromSol := fun lf => lf;
  poseidonHash := fun '(p, q, v) _ => (p + 2 * q + 3 * v + 1)%Z;
  newPrivateKey := fun s => Z.of_nat (String.length s);
  checkQDerivation := fun '(p, q, _) alpha => (q =? p * alpha)%Z;
  base10 := fun '(p, q, v) => (v, p, q);
  hashLeftRight := demoHash;
  NOTHING_UP_MY_SLEEVE := 11%Z;
  parseVKey := fun s => Ok s;
  exportCallDataGroth16 := fun prf sigs =>
    Ok {| cd_a := [prf; prf]; cd_b := [[prf; prf]; [prf; prf]];
          cd_c := [prf; prf]; cd_input := sigs |};
  genPathUninserted := fun _ index =>
    match index with
    | Some _ => Thrown (mkError "Error" "The leaf index is too large")
    | None => Ok {| pathElements := []; indices := [] |}
    end;
  TREASURY_PRIVKEY := "abc";
  Ledger := DemoLedger
|}.

(** The proving engine of the instance: the public signals list the root,
    the leaf index and the leaf fields of the witness. *)
Definition demoProve (input : @ProverInput demoX) : Z * list Z :=
  (42%Z,
   [w_root input;
    match w_leafIndex input with Some i => Z.of_nat i | None => (-1)%Z end;
    w_v input; w_P input; w_Q input]).

(** An environment in which every call succeeds and the local verifier
    answers [verdict]. *)
Definition demoEnv (verdict : bool) : @Env demoX := {|
  reply := fun c =>
    match c as c0 return DemoLedger -> JsResult (@Resp demoX c0) with
    | BuildPoseidon => fun _ => Ok tt
    | QueryFilterNewLeaf => fun l => Ok (deposits l)
    | ContractRoot => fun l => Ok (storedRoot l)
    | ContractWithdraw _ _ _ _ _ => fun _ => Ok tt
    | SignerGetBalance => fun _ => Ok 0%Z
    | Groth16FullProve input _ _ => fun _ => Ok (demoProve input)
    | Groth16Verify _ _ _ => fun _ => Ok verdict
    | ReadFileSync _ _ => fun _ => Ok "{}"
    | GenMerklePath _ _ =>
        fun _ => Thrown (mkError "Error" "not an external call")
    end;
  settle := fun l i _ _ _ _ =>
    {| deposits := deposits l; storedRoot := storedRoot l;
       payouts := payouts l ++ [i] |}
|}.

(** Three deposits; the first and the third are owned by the key. *)
Definition threeDeposits : list (Z * Z * Z) :=
  [(1, 3, 10); (2, 5, 20); (4, 12, 30)]%Z.

(** The root the instance computes for [threeDeposits]. *)
Definition localRoot3 : Z :=
  @root demoX (@replay demoX (@hashesOf demoX tt threeDeposits)).

(** A ledger that agrees with the local accumulator. *)
Definition agreeingLedger : DemoLedger :=
  {| deposits := threeDeposits; storedRoot := localRoot3; payouts := [] |}.

(** A ledger whose stored root differs from the local one. *)
Definition disagreeingLedger : DemoLedger :=
  {| deposits := threeDeposits; storedRoot := 0%Z; payouts := [] |}.

(** A ledger with no deposit, holding the root of the empty tree. *)
Definition emptyLedger : DemoLedger :=
  {| deposits := [];
     storedRoot := @root demoX (@replay demoX []);
     payouts := [] |}.

End Demo.

(** ** Kinds of calls, budgets and endings *)

(** The external operation a call addresses. *)
Inductive Kind : Type :=
| KPoseidon | KQuery | KRoot | KWithdraw | KBalance
| KProve | KVerify | KReadFile | KGenPath.

Definition Kind_eqb (a b : Kind) : bool :=
  match a, b with
  | KPoseidon, KPoseidon | KQuery, KQuery | KRoot, KRoot
  | KWithdraw, KWithdraw | KBalance, KBalance | KProve, KProve
  | KVerify, KVerify | KReadFile, KReadFile | KGenPath, KGenPath => true
  | _, _ => false
  end.

Section Budgets.
Context {X : Externals}.

Definition kindOf (c : Cmd) : Kind :=
  match c with
  | BuildPoseidon => KPoseidon
  | QueryFilterNewLeaf => KQuery
  | ContractRoot => KRoot
  | ContractWithdraw _ _ _ _ _ => KWithdraw
  | SignerGetBalance => KBalance
  | Groth16FullProve _ _ _ => KProve
  | Groth16Verify _ _ _ => KVerify
  | ReadFileSync _ _ => KReadFile
  | GenMerklePath _ _ => KGenPath
  end.

Definition isKind (k : Kind) (ev : Event) : bool :=
  match ev with
  | EvCall c _ => Kind_eqb k (kindOf c)
  | EvLog _ => false
  end.

(** How many calls of kind [k] a trace holds. *)
Definition countKind (k : Kind) (t : list Event) : nat :=
  length (filter (isKind k) t).

(** Whatever the answers, the program makes at most [n] calls of kind
    [k]. *)
Fixpoint atMost {A : Type} (k : Kind) (p : Prog A) (n : nat) : Prop :=
  match p with
  | Ret _ | Throw _ | Exit _ => True
  | Log _ rest => atMost k rest n
  | Call c rest =>
      if Kind_eqb k (kindOf c)
      then match n with
           | O => False
           | S m => forall v, atMost k (rest v) m
           end
      else forall v, atMost k (rest v) n
  end.

(** Whatever the answers, the program does not return: it exits with code
    0 or an exception escapes. *)
Fixpoint exitsOrThrows {A : Type} (p : Prog A) : Prop :=
  match p with
  | Ret _ => False
  | Throw _ => True
  | Exit code => code = 0
  | Log _ rest => exitsOrThrows rest
  | Call _ rest => forall v, exitsOrThrows (rest v)
  end.

(** The witness objects handed to the proving engine, in order. *)
Definition proverInputs (t : list Event) : list ProverInput :=
  flat_map (fun ev =>
              match ev with
              | EvCall (Groth16FullProve input _ _) _ => [input]
              | _ => []
              end) t.

(** The object literal [genGroth16Proof] builds for a defined leaf. *)
Definition witnessOf (lf : Leaf) (lfIdx : option nat) (root : Z)
  (treasuryPriv : string) (inclusionProof : MerklePath) : ProverInput :=
  let '(v, P, Q) := base10 lf in
  {| w_v := v;
     w_root := root;
     w_leafIndex := lfIdx;
     w_P := P;
     w_Q := Q;
     w_treasuryPriv := treasuryPriv;
     w_pathIndex := indices inclusionProof;
     w_pathElements := pathElements inclusionProof |}.

End Budgets.

(** ** Environments with failures *)

Module Faults.
Import Demo.

Definition callFailed : JsError := mkError "Error" "call failed".

(** The concrete environment, except that the calls of the kinds selected
    by [fails] throw. *)
Definition faultyEnv (fails : Kind -> bool) (verdict : bool) : @Env demoX :=
  @mkEnv demoX
    (fun c l =>
       if fails (@kindOf demoX c)
       then Thrown callFailed
       else reply (demoEnv verdict) c l)
    (settle (demoEnv verdict)).

(** The concrete environment, except that the balance cannot be read once
    a withdrawal has been paid out. *)
Definition balanceLostAfterPayout : @Env demoX :=
  @mkEnv demoX
    (fun c l =>
       match payouts l, @kindOf demoX c with
       | _ :: _, KBalance => Thrown callFailed
       | _, _ => reply (demoEnv true) c l
       end)
    (settle (demoEnv true)).

(** Two deposits of which only the second is owned by the key. *)
Definition oneOwnedLedger : DemoLedger :=
  {| deposits := [(2, 5, 20); (4, 12, 30)]%Z;
     storedRoot := 0%Z;
     payouts := [] |}.

(** [threeDeposits] followed by two more deposits, the last one owned. *)
Definition fiveDeposits : list (Z * Z * Z) :=
  (threeDeposits ++ [(7, 1, 5); (3, 9, 40)])%Z.

Definition grownLedger : DemoLedger :=
  {| deposits := fiveDeposits; storedRoot := 0%Z; payouts := [] |}.

End Faults.

(** * Properties *)

(** ** The accumulator *)

Section AccumulatorTheory.
Context {X : Externals}.

(** Induction that follows the recursion of [hashLevel], two positions
    at a time. *)
Lemma pairwise_ind {A : Type} (P : list A -> Prop) :
  P [] ->
  (forall a, P [a]) ->
  (forall a b rest, P rest -> P (a :: b :: rest)) ->
  forall l, P l.
Proof.
  intros Hnil Hone Htwo l.
  enough (P l /\ forall a, P (a :: l)) by tauto.
  induction l as [|b rest [IH1 IH2]]; split; auto.
Qed.

Lemma hashLevel_nth (z : Z) (level : list Z) :
  forall j,
    nth j (hashLevel z level) (hashLeftRight z z)
    = hashLeftRight (nth (2 * j) level z) (nth (2 * j + 1) level z).
Proof.
  induction level as [|a|a b rest IH] using pairwise_ind; intros j.
  - simpl hashLevel. rewrite !nth_overflow by (simpl; lia). reflexivity.
  - destruct j as [|j].
    + reflexivity.
    + simpl hashLevel. rewrite !nth_overflow by (simpl; lia). reflexivity.
  - destruct j as [|j].
    + reflexivity.
    + replace (2 * S j) with (S (S (2 * j))) by lia.
      replace (S (S (2 * j)) + 1) with (S (S (2 * j + 1))) by lia.
      simpl hashLevel. simpl nth. apply IH.
Qed.

Lemma subtreeRoot_ext (d : nat) :
  forall f g off,
    (forall i, f i = g i) -> subtreeRoot d f off = subtreeRoot d g off.
Proof.
  induction d as [|d IH]; intros f g off Hfg; simpl.
  - apply Hfg.
  - now rewrite (IH f g off), (IH f g (off + 2 ^ d)).
Qed.

(** A tree over the hashed pairs is the tree one level deeper over the
    positions themselves. *)
Lemma subtreeRoot_pairs (d : nat) :
  forall f off,
    subtreeRoot d (fun j => hashLeftRight (f (2 * j)) (f (2 * j + 1))) off
    = subtreeRoot (S d) f (2 * off).
Proof.
  induction d as [|d IH]; intros f off.
  - simpl. now rewrite !Nat.add_0_r.
  - change (subtreeRoot (S d) ?g off)
      with (hashLeftRight (subtreeRoot d g off)
              (subtreeRoot d g (off + 2 ^ d))).
    rewrite !IH.
    change (subtreeRoot (S (S d)) f (2 * off))
      with (hashLeftRight (subtreeRoot (S d) f (2 * off))
              (subtreeRoot (S d) f (2 * off + 2 ^ S d))).
    replace (2 * (off + 2 ^ d)) with (2 * off + 2 ^ S d)
      by (rewrite Nat.pow_succ_r'; lia).
    reflexivity.
Qed.

(** The root of the model is the root of the complete tree in which every
    unfilled position holds the empty value. *)
Lemma merkleRoot_complete (d : nat) :
  forall z level, merkleRoot d z level = subtreeRoot d (padded z level) 0.
Proof.
  induction d as [|d IH]; intros z level.
  - reflexivity.
  - change (merkleRoot (S d) z level)
      with (merkleRoot d (hashLeftRight z z) (hashLevel z level)).
    rewrite IH.
    rewrite (subtreeRoot_ext d
               (padded (hashLeftRight z z) (hashLevel z level))
               (fun j => hashLeftRight (padded z level (2 * j))
                           (padded z level (2 * j + 1))) 0).
    + apply (subtreeRoot_pairs d (padded z level) 0).
    + intros j. apply hashLevel_nth.
Qed.

Lemma sibling_even (j : nat) : sibling (2 * j) = 2 * j + 1.
Proof.
  unfold sibling.
  replace (Nat.even (2 * j)) with true; [lia|].
  symmetry. apply Nat.even_spec. now exists j.
Qed.

Lemma sibling_odd (j : nat) : sibling (2 * j + 1) = 2 * j.
Proof.
  unfold sibling.
  replace (Nat.even (2 * j + 1)) with false; [lia|].
  symmetry. rewrite <- Nat.negb_odd.
  replace (Nat.odd (2 * j + 1)) with true; [reflexivity|].
  symmetry. apply Nat.odd_spec. now exists j.
Qed.

(** One step of the recomputation lands on the parent node. *)
Lemma recompute_step (z : Z) (level : list Z) (i : nat) :
  (if i mod 2 =? 0
   then hashLeftRight (nth i level z) (nth (sibling i) level z)
   else hashLeftRight (nth (sibling i) level z) (nth i level z))
  = nth (i / 2) (hashLevel z level) (hashLeftRight z z).
Proof.
  rewrite hashLevel_nth.
  pose proof (Nat.div_mod_eq i 2) as Hi.
  pose proof (Nat.mod_upper_bound i 2) as Hlt.
  destruct (i mod 2 =? 0) eqn:Hpar.
  - apply Nat.eqb_eq in Hpar.
    replace i with (2 * (i / 2)) at 1 2 by lia.
    rewrite sibling_even. reflexivity.
  - apply Nat.eqb_neq in Hpar.
    replace i with (2 * (i / 2) + 1) at 1 2 by lia.
    rewrite sibling_odd. reflexivity.
Qed.

Lemma recompute_inclusionPath (d : nat) :
  forall z level i,
    i < 2 ^ d ->
    recomputeRoot (nth i level z) (inclusionPath d z level i)
    = merkleRoot d z level.
Proof.
  induction d as [|d IH]; intros z level i Hi.
  - simpl in *. assert (i = 0) by lia. subst i. reflexivity.
  - cbn [inclusionPath recomputeRoot merkleRoot].
    rewrite recompute_step. apply IH.
    rewrite Nat.pow_succ_r' in Hi.
    apply Nat.Div0.div_lt_upper_bound. exact Hi.
Qed.

(** A position not above the depth is a position of the tree. *)
Lemma position_below_depth (i d : nat) : i <= d -> i < 2 ^ d.
Proof.
  intros Hle. apply Nat.lt_le_trans with (2 ^ i).
  - apply Nat.pow_gt_lin_r. lia.
  - apply Nat.pow_le_mono_r; lia.
Qed.

Lemma inclusionPath_length (d : nat) :
  forall z level i, length (inclusionPath d z level i) = d.
Proof.
  induction d as [|d IH]; intros z level i; simpl; [reflexivity|].
  now rewrite IH.
Qed.

Lemma combine_fst_snd {A B : Type} (l : list (A * B)) :
  combine (map fst l) (map snd l) = l.
Proof.
  induction l as [|[a b] l IH]; simpl; [reflexivity|]. now rewrite IH.
Qed.

Lemma fold_insert_leaves (leafHashes : list Z) :
  forall t,
    fold_left insert leafHashes t
    = {| depth := depth t; zeroValue := zeroValue t;
         leavesPerNode := leavesPerNode t;
         leaves := leaves t ++ leafHashes |}.
Proof.
  induction leafHashes as [|lh rest IH]; intros t; simpl.
  - rewrite app_nil_r. now destruct t.
  - rewrite IH. simpl. now rewrite <- app_assoc.
Qed.

Lemma replay_eq (leafHashes : list Z) :
  replay leafHashes
  = {| depth := TREE_DEPTH; zeroValue := NOTHING_UP_MY_SLEEVE;
       leavesPerNode := 2; leaves := leafHashes |}.
Proof. unfold replay. now rewrite fold_insert_leaves. Qed.

Lemma root_replay (leafHashes : list Z) :
  root (replay leafHashes)
  = merkleRoot TREE_DEPTH NOTHING_UP_MY_SLEEVE leafHashes.
Proof. now rewrite replay_eq. Qed.

End AccumulatorTheory.

(** ** Runs of programs *)

Section RunTheory.
Context {X : Externals}.
Variable env : Env.

Lemma run_bind {A B : Type} (p : Prog A) (f : A -> Prog B) :
  forall l,
    run env (bind p f) l
    = andThen (run env p l) (fun a l' => run env (f a) l').
Proof.
  induction p as [a|e|n|args k IH|c k IH]; intros l; simpl.
  - unfold andThen. simpl. now destruct (run env (f a) l).
  - reflexivity.
  - reflexivity.
  - rewrite IH. unfold andThen, after. simpl.
    now destruct (outcome (run env k l)).
  - destruct (answer env c l) as [v|e]; [|reflexivity].
    rewrite IH. unfold andThen, after. simpl.
    now destruct (outcome (run env (k v) (effect env c (Ok v) l))).
Qed.

Lemma callsIn_bind {A B : Type} (P : Cmd -> Prop) (p : Prog A)
  (f : A -> Prog B) :
  callsIn P p -> (forall a, callsIn P (f a)) -> callsIn P (bind p f).
Proof.
  intros Hp Hf. induction p as [a|e|n|args k IH|c k IH]; simpl in *; auto.
  destruct Hp as [Hc Hk]. split; auto.
Qed.

Lemma callsIn_weaken {A : Type} (P Q : Cmd -> Prop) (p : Prog A) :
  (forall c, P c -> Q c) -> callsIn P p -> callsIn Q p.
Proof.
  intros HPQ. induction p as [a|e|n|args k IH|c k IH]; simpl; auto.
  intros [Hc Hk]. split; auto.
Qed.

(** What a program cannot call does not occur in its traces. *)
Lemma callsIn_trace {A : Type} (P : Cmd -> Prop) (p : Prog A) :
  callsIn P p -> forall l, callsOf P (trace (run env p l)).
Proof.
  unfold callsOf.
  induction p as [a|e|n|args k IH|c k IH]; simpl; intros Hp l;
    try constructor; auto.
  destruct Hp as [Hc Hk].
  destruct (answer env c l) as [v|e]; simpl; constructor; auto.
Qed.

(** A program that cannot call [withdraw] leaves the ledger as it was. *)
Lemma callsIn_ledger {A : Type} (p : Prog A) :
  callsIn (fun c => withdrawCall c = false) p ->
  forall l, ledgerAfter (run env p l) = l.
Proof.
  induction p as [a|e|n|args k IH|c k IH]; simpl; intros Hp l; auto.
  destruct Hp as [Hc Hk].
  assert (Heff : forall r, effect env c r l = l).
  { intros r. destruct c; try reflexivity. discriminate Hc. }
  destruct (answer env c l) as [v|e]; simpl; rewrite Heff; auto.
Qed.

End RunTheory.

(** ** The ownership scanner *)

Section ScannerTheory.
Context {X : Externals}.

Lemma reduceFrom_ownedStep (history : list Leaf) :
  forall i acc,
    reduceFrom ownedStep history i acc = acc ++ ownedFrom history i.
Proof.
  induction history as [|lf rest IH]; intros i acc; simpl.
  - now rewrite app_nil_r.
  - rewrite IH. unfold ownedStep, ownedBy.
    destruct (checkQDerivation lf (newPrivateKey TREASURY_PRIVKEY)).
    + now rewrite <- app_assoc.
    + reflexivity.
Qed.

Lemma reduce_ownedStep (history : list Leaf) :
  reduce ownedStep history [] = ownedFrom history 0.
Proof. unfold reduce. now rewrite reduceFrom_ownedStep. Qed.

Lemma ownedFrom_In (history : list Leaf) :
  forall i k,
    In k (ownedFrom history i) <->
    exists lf, i <= k /\ nth_error history (k - i) = Some lf
               /\ ownedBy lf = true.
Proof.
  induction history as [|lf rest IH]; intros i k; simpl.
  - split; [tauto|]. intros (lf & _ & H & _).
    destruct (k - i); discriminate.
  - assert (Hrest : In k (ownedFrom rest (S i)) <->
                    exists lf', S i <= k /\
                                nth_error rest (k - S i) = Some lf' /\
                                ownedBy lf' = true) by apply IH.
    destruct (ownedBy lf) eqn:Hown; simpl; rewrite ?Hrest; split.
    + intros [<-|(lf' & Hle & Hnth & Ho)].
      * exists lf. rewrite Nat.sub_diag. auto.
      * exists lf'. replace (k - i) with (S (k - S i)) by lia.
        repeat split; auto; lia.
    + intros (lf' & Hle & Hnth & Ho).
      destruct (Nat.eq_dec i k) as [->|Hne]; [now left|right].
      exists lf'. replace (k - i) with (S (k - S i)) in Hnth by lia.
      repeat split; auto; lia.
    + intros (lf' & Hle & Hnth & Ho).
      exists lf'. replace (k - i) with (S (k - S i)) by lia.
      repeat split; auto; lia.
    + intros (lf' & Hle & Hnth & Ho).
      destruct (Nat.eq_dec i k) as [->|Hne].
      * rewrite Nat.sub_diag in Hnth. simpl in Hnth.
        injection Hnth as <-. congruence.
      * exists lf'. replace (k - i) with (S (k - S i)) in Hnth by lia.
        repeat split; auto; lia.
Qed.

Lemma ownedFrom_range (history : list Leaf) :
  forall i,
    Forall (fun k => i <= k < i + length history) (ownedFrom history i).
Proof.
  induction history as [|lf rest IH]; intros i; simpl; [constructor|].
  assert (Hrest : Forall (fun k => i <= k < i + S (length rest))
                    (ownedFrom rest (S i))).
  { eapply Forall_impl; [|apply IH]. simpl. intros k; lia. }
  destruct (ownedBy lf); auto. constructor; auto. lia.
Qed.

Lemma ownedFrom_sorted (history : list Leaf) :
  forall i, StronglySorted lt (ownedFrom history i).
Proof.
  induction history as [|lf rest IH]; intros i; simpl; [constructor|].
  destruct (ownedBy lf); auto. constructor; auto.
  eapply Forall_impl; [|apply ownedFrom_range]. simpl. intros k; lia.
Qed.

(** An index the scanner reports is an index of the history. *)
Lemma owned_in_history (history : list Leaf) (n i : nat) :
  nth_error (ownedFrom history 0) n = Some i -> i < length history.
Proof.
  intros Hn. apply nth_error_In in Hn.
  pose proof (ownedFrom_range history 0) as Hall.
  rewrite Forall_forall in Hall. apply Hall in Hn. lia.
Qed.

End ScannerTheory.

(** ** The stages of the script *)

Section StageTheory.
Context {X : Externals}.
Variable env : Env.

Lemma call_calls (P : Cmd -> Prop) (c : Cmd) : P c -> callsIn P (call c).
Proof. intros Hc. split; [exact Hc|]. intros v. exact I. Qed.

Lemma getDepositHistory_calls (poseidon : Poseidon) :
  callsIn offSubmitter (getDepositHistory poseidon).
Proof. repeat (split || intro). Qed.

Lemma checkLeafOwnership_calls (leafHistory : list Leaf) :
  callsIn offSubmitter (checkLeafOwnership leafHistory).
Proof. exact I. Qed.

Lemma reconstructMerkleTree_calls (leafHashes : list Z) :
  callsIn offSubmitter (reconstructMerkleTree leafHashes).
Proof. repeat (split || intro). Qed.

Lemma genGroth16Proof_calls lf lfIdx rt priv path :
  callsIn offSubmitter (genGroth16Proof lf lfIdx rt priv path).
Proof.
  unfold genGroth16Proof. destruct lf as [lf|]; [|exact I].
  simpl. destruct (base10 lf) as [[v P] Q]. repeat (split || intro).
Qed.

Lemma proveSanityCheck_calls prf pubSigs :
  callsIn offSubmitter (proveSanityCheck prf pubSigs).
Proof.
  simpl. split; [reflexivity|]. intros text.
  destruct (parseVKey text) as [vKey|e]; simpl; [|exact I].
  split; [reflexivity|]. intros [|]; exact I.
Qed.

Create HintDb calls.
#[local] Hint Resolve call_calls getDepositHistory_calls
  checkLeafOwnership_calls reconstructMerkleTree_calls genGroth16Proof_calls
  proveSanityCheck_calls : calls.
#[local] Hint Extern 1 (offSubmitter _) => reflexivity : calls.

(** One statement of a sequence: the stage is closed from the hints, the
    rest of the sequence is left. *)
Ltac next_stage :=
  apply callsIn_bind; [solve [auto with calls]|]; intros [].

Lemma main_calls : callsIn offSubmitter main.
Proof.
  unfold main.
  apply callsIn_bind; [solve [auto with calls]|]. intros poseidon.
  apply callsIn_bind; [solve [auto with calls]|].
  intros [leafHistory leafHashes].
  apply callsIn_bind; [solve [auto with calls]|]. intros ownedLeaves.
  apply callsIn_bind; [solve [auto with calls]|]. intros tree.
  apply callsIn_bind; [solve [auto with calls]|]. intros merkleProof.
  do 2 next_stage. exact I.
Qed.

Lemma run_getDepositHistory poseidon l emitted :
  reply env QueryFilterNewLeaf l = Ok emitted ->
  run env (getDepositHistory poseidon) l
  = {| outcome := Returned (map fromSol emitted, hashesOf poseidon emitted);
       ledgerAfter := l;
       trace := [EvLog [LStr "== Fetching deposit history"];
                 EvCall QueryFilterNewLeaf (Ok emitted);
                 EvLog [LTpl "- Retrieved "
                          (length (hashesOf poseidon emitted)) " leaves"];
                 EvLog [LStr "=="]] |}.
Proof.
  intros Hq. unfold getDepositHistory. simpl. unfold after. simpl.
  rewrite Hq. reflexivity.
Qed.

Lemma run_checkLeafOwnership leafHistory l :
  run env (checkLeafOwnership leafHistory) l
  = {| outcome := Returned (ownedFrom leafHistory 0);
       ledgerAfter := l;
       trace := [EvLog [LStr "== Checking leaves for ownership"];
                 EvLog [LTpl "- Found " (length (ownedFrom leafHistory 0))
                          " leaves recoverable by the privKey."];
                 EvLog [LStr "=="]] |}.
Proof.
  unfold checkLeafOwnership. rewrite reduce_ownedStep. reflexivity.
Qed.

Lemma run_reconstructMerkleTree leafHashes l onChain :
  reply env ContractRoot l = Ok onChain ->
  run env (reconstructMerkleTree leafHashes) l
  = {| outcome := Returned (replay leafHashes);
       ledgerAfter := l;
       trace := [EvLog [LStr "== Reconstructing Merkle tree"];
                 EvLog [LStr "- Root:"; LBig (root (replay leafHashes))];
                 EvCall ContractRoot (Ok onChain);
                 EvLog [LStr "- Same as root stored on contract?";
                        LBool (root (replay leafHashes) =? onChain)%Z];
                 EvLog [LStr "=="]] |}.
Proof.
  intros Hr. unfold reconstructMerkleTree. simpl. unfold after. simpl.
  rewrite Hr. reflexivity.
Qed.

End StageTheory.

(** ** The claims about the stages *)

Section StageClaims.
Context {X : Externals}.
Variable env : Env.

(** C5.  [getDepositHistory] returns the leaf history and the leaf hashes:
    two sequences of equal length, the history being the emitted leaves in
    the order the ledger query returned them, and the hash at every
    position being the Poseidon hash of the record at that position,
    computed from that record alone.  The ledger is left as it was. *)
Theorem getDepositHistory_hashes_by_position
  (poseidon : Poseidon) (l : Ledger) (emitted : list SolLeaf)
  (Hquery : reply env QueryFilterNewLeaf l = Ok emitted) :
  exists leafHistory leafHashes,
    outcome (run env (getDepositHistory poseidon) l)
    = Returned (leafHistory, leafHashes)
    /\ leafHistory = map fromSol emitted
    /\ length leafHistory = length leafHashes
    /\ (forall i,
           nth_error leafHashes i
           = option_map (fun lf => poseidonHash lf poseidon)
               (nth_error leafHistory i))
    /\ ledgerAfter (run env (getDepositHistory poseidon) l) = l.
Proof.
  exists (map fromSol emitted), (hashesOf poseidon emitted).
  rewrite (run_getDepositHistory env poseidon l Hquery). simpl.
  unfold hashesOf. repeat split.
  - now rewrite !length_map.
  - intros i. apply nth_error_map.
Qed.

(** C6.  [checkLeafOwnership] returns exactly the indices of the records
    of the history that satisfy the ownership relation for the configured
    secret, in strictly ascending order; it makes no call, leaves the
    ledger as it was, and returns the empty sequence for the empty
    history. *)
Theorem checkLeafOwnership_exact (l : Ledger) (leafHistory : list Leaf) :
  exists owned,
    outcome (run env (checkLeafOwnership leafHistory) l) = Returned owned
    /\ (forall i,
           In i owned <->
           exists lf, nth_error leafHistory i = Some lf
                      /\ checkQDerivation lf
                           (newPrivateKey TREASURY_PRIVKEY) = true)
    /\ StronglySorted lt owned
    /\ callsOf (fun _ => False)
         (trace (run env (checkLeafOwnership leafHistory) l))
    /\ ledgerAfter (run env (checkLeafOwnership leafHistory) l) = l
    /\ outcome (run env (checkLeafOwnership []) l) = Returned [].
Proof.
  exists (ownedFrom leafHistory 0).
  rewrite !run_checkLeafOwnership. simpl. repeat split.
  - intros Hin. apply ownedFrom_In in Hin.
    destruct Hin as (lf & _ & Hnth & Hown).
    rewrite Nat.sub_0_r in Hnth. now exists lf.
  - intros (lf & Hnth & Hown). apply ownedFrom_In.
    exists lf. rewrite Nat.sub_0_r. repeat split; auto. lia.
  - apply ownedFrom_sorted.
  - repeat constructor.
Qed.

End StageClaims.

(** ** The claims about the accumulator *)

Section AccumulatorClaims.
Context {X : Externals}.

(** C7.  The root of the accumulator that [reconstructMerkleTree] returns
    is a function of the inserted sequence only: two replays of the same
    sequence of leaf hashes, in any two environments and ledger states,
    return accumulators with the same root, which is the Merkle root of
    that sequence. *)
Theorem root_is_function_of_sequence
  (env env' : Env) (l l' : Ledger) (leafHashes : list Z)
  (t t' : IncrementalQuinTree)
  (Hfirst : outcome (run env (reconstructMerkleTree leafHashes) l)
            = Returned t)
  (Hsecond : outcome (run env' (reconstructMerkleTree leafHashes) l')
             = Returned t') :
  root t = root t'
  /\ root t = merkleRoot TREE_DEPTH NOTHING_UP_MY_SLEEVE leafHashes
  /\ leaves t = leafHashes.
Proof.
  assert (Hret : forall e s u,
             outcome (run e (reconstructMerkleTree leafHashes) s)
             = Returned u -> u = replay leafHashes).
  { intros e s u. unfold reconstructMerkleTree. simpl.
    destruct (reply e ContractRoot s) as [onChain|err]; simpl.
    - now intros [= <-].
    - discriminate. }
  apply Hret in Hfirst. apply Hret in Hsecond. subst t t'.
  rewrite root_replay, replay_eq. auto.
Qed.

(** C8.  For the index [i] of an inserted leaf of an accumulator (a
    position of the tree, so below [2 ^ depth]), [genMerklePath] returns a
    path of one sibling hash and one branch selector per level, and
    recomputing from the leaf at [i] up that path gives the accumulator's
    current root. *)
Theorem genMerklePath_recomputes_root
  (t : IncrementalQuinTree) (i : nat) (leaf : Z)
  (Hleaf : nth_error (leaves t) i = Some leaf)
  (Hpos : i < 2 ^ depth t) :
  exists path,
    genMerklePath t (Some i) = Ok path
    /\ length (pathElements path) = depth t
    /\ length (indices path) = depth t
    /\ recomputeFromPath leaf path = root t.
Proof.
  assert (Hlt : i < length (leaves t)).
  { apply nth_error_Some. congruence. }
  unfold genMerklePath. apply Nat.ltb_lt in Hlt. rewrite Hlt.
  eexists. split; [reflexivity|]. simpl.
  rewrite !length_map, inclusionPath_length. repeat split.
  unfold recomputeFromPath. simpl. rewrite combine_fst_snd.
  rewrite <- (nth_error_nth _ _ (zeroValue t) Hleaf).
  now apply recompute_inclusionPath.
Qed.

(** C9.  The accumulator the script builds has depth 32, two leaves per
    node and the empty value [NOTHING_UP_MY_SLEEVE]; it holds the replayed
    leaves, and for every prefix of the leaf sequence its root is the root
    of the complete binary tree of that depth in which the positions of the
    prefix hold its leaf hashes and every unfilled position holds the empty
    value. *)
Theorem replay_parameters_and_padding (leafHashes : list Z) (n : nat) :
  depth (replay leafHashes) = 32
  /\ leavesPerNode (replay leafHashes) = 2
  /\ zeroValue (replay leafHashes) = NOTHING_UP_MY_SLEEVE
  /\ leaves (replay leafHashes) = leafHashes
  /\ root (replay (firstn n leafHashes))
     = subtreeRoot TREE_DEPTH
         (fun i => nth i (firstn n leafHashes) NOTHING_UP_MY_SLEEVE) 0.
Proof.
  rewrite replay_eq.
  split; [reflexivity|]. split; [reflexivity|].
  split; [reflexivity|]. split; [reflexivity|].
  rewrite root_replay. apply merkleRoot_complete.
Qed.

End AccumulatorClaims.

(** ** The claims about the entry point *)

Section PipelineClaims.
Context {X : Externals}.
Variable env : Env.

Lemma main_unfold :
  main
  = (poseidon <- call BuildPoseidon;;
     ' (leafHistory, leafHashes) <- getDepositHistory poseidon;;
     ownedLeaves <- checkLeafOwnership leafHistory;;
     tree <- reconstructMerkleTree leafHashes;;
     afterReplay leafHistory ownedLeaves tree)%prog.
Proof. reflexivity. Qed.

Lemma offSubmitter_not_withdraw (c : Cmd) :
  offSubmitter c -> withdrawCall c = false.
Proof. unfold offSubmitter. now destruct c. Qed.

Lemma main_ledger (l : Ledger) : ledgerAfter (run env main l) = l.
Proof.
  apply callsIn_ledger.
  eapply callsIn_weaken; [apply offSubmitter_not_withdraw|].
  apply main_calls.
Qed.

Lemma main_never_withdraws (l : Ledger) :
  existsb isWithdraw (trace (run env main l)) = false.
Proof.
  pose proof (@callsIn_trace _ env _ offSubmitter main main_calls l)
    as Hall.
  unfold callsOf in Hall.
  induction Hall as [|ev t Hev _ IH]; simpl; [reflexivity|].
  rewrite IH, orb_false_r.
  destruct ev as [args|c r]; [reflexivity|].
  now apply offSubmitter_not_withdraw.
Qed.

(** C10.  Every run of the entry point leaves the external ledger as it
    found it: the contract calls that occur are the two queries (the
    [NewLeaf] event filter and [root()]), and no call of [sendProofTx]
    ([withdraw], [getBalance]) is reachable from the entry point or occurs
    in a run. *)
Theorem main_leaves_ledger_unchanged (l : Ledger) :
  ledgerAfter (run env main l) = l
  /\ callsOf (fun c => contractCall c = readOnlyQuery c)
       (trace (run env main l))
  /\ callsOf (fun c => submitterCall c = false) (trace (run env main l))
  /\ callsIn (fun c => submitterCall c = false) main
  /\ existsb isWithdraw (trace (run env main l)) = false.
Proof.
  split; [apply main_ledger|].
  split.
  - apply callsIn_trace. eapply callsIn_weaken; [|apply main_calls].
    intros c. unfold offSubmitter. now destruct c.
  - split; [apply callsIn_trace, main_calls|].
    split; [apply main_calls|apply main_never_withdraws].
Qed.

(** C1.  In every run of the entry point in which the local verifier
    answers false, no [withdraw] call is dispatched and the ledger is left
    as it was. *)
Theorem failed_verification_never_submits (l : Ledger)
  (Hfailed : existsb isFailedVerify (trace (run env main l)) = true) :
  existsb isWithdraw (trace (run env main l)) = false
  /\ ledgerAfter (run env main l) = l.
Proof. split; [apply main_never_withdraws|apply main_ledger]. Qed.

End PipelineClaims.

(** ** Runs of the entry point past the replay *)

Section SelectionTheory.
Context {X : Externals}.
Variable env : Env.

(** Up to the replay the run is the sequence of the stages. *)
Lemma run_main_stages (l : Ledger) poseidon emitted onChain :
  reply env BuildPoseidon l = Ok poseidon ->
  reply env QueryFilterNewLeaf l = Ok emitted ->
  reply env ContractRoot l = Ok onChain ->
  let leafHistory := map fromSol emitted in
  let leafHashes := hashesOf poseidon emitted in
  let rest :=
    run env (afterReplay leafHistory (ownedFrom leafHistory 0)
               (replay leafHashes)) l in
  run env main l
  = {| outcome := outcome rest;
       ledgerAfter := ledgerAfter rest;
       trace :=
         EvCall BuildPoseidon (Ok poseidon)
           :: trace (run env (getDepositHistory poseidon) l)
           ++ trace (run env (checkLeafOwnership leafHistory) l)
           ++ trace (run env (reconstructMerkleTree leafHashes) l)
           ++ trace rest |}.
Proof.
  intros Hps Hq Hr leafHistory leafHashes rest.
  rewrite main_unfold.
  change (run env (bind (call BuildPoseidon) ?f) l)
    with (match answer env BuildPoseidon l with
          | Ok v => after (EvCall BuildPoseidon (answer env BuildPoseidon l))
                      (run env (f v) l)
          | Thrown e => mkRun (Threw e) l
                          [EvCall BuildPoseidon (answer env BuildPoseidon l)]
          end).
  change (answer env BuildPoseidon l) with (reply env BuildPoseidon l).
  rewrite Hps.
  rewrite run_bind, (run_getDepositHistory env poseidon l Hq).
  unfold andThen. cbn [outcome ledgerAfter trace].
  rewrite run_bind, run_checkLeafOwnership.
  unfold andThen. cbn [outcome ledgerAfter trace].
  rewrite run_bind, (run_reconstructMerkleTree env _ l Hr).
  unfold andThen, after. cbn [outcome ledgerAfter trace].
  subst rest leafHistory leafHashes.
  rewrite run_checkLeafOwnership, (run_reconstructMerkleTree env _ l Hr).
  reflexivity.
Qed.

Lemma proveSanityCheck_verifier_calls prf pubSigs :
  callsIn verifierCall (bind (proveSanityCheck prf pubSigs)
                          (fun _ => Exit 0 : Prog unit)).
Proof.
  simpl. split; [exact I|]. intros text.
  destruct (parseVKey text) as [vKey|e]; simpl; [|exact I].
  split; [exact I|]. intros [|]; exact I.
Qed.

(** No index was proved exactly when the prover was not called. *)
Lemma provedIndices_nil (t : list Event) :
  provedIndices t = [] -> existsb isFullProve t = false.
Proof.
  unfold provedIndices. induction t as [|ev t IH]; simpl; [reflexivity|].
  destruct ev as [args|c r]; simpl; [exact IH|].
  destruct c; simpl; try exact IH. discriminate.
Qed.

(** The verifier requests no path and calls no prover. *)
Lemma verifier_trace_quiet (t : list Event) :
  callsOf verifierCall t ->
  requestedPaths t = [] /\ provedRoots t = [] /\ provedIndices t = []
  /\ existsb isFullProve t = false.
Proof.
  unfold callsOf. induction 1 as [|ev t Hev _ IH]; simpl; [auto|].
  destruct IH as (-> & -> & -> & ->).
  destruct ev as [args|c r]; simpl; [auto|].
  destruct c; simpl in Hev; try contradiction; auto.
Qed.

(** With fewer than [LEAF_IDX + 1] owned leaves the selection is
    [undefined]: the path is requested for [undefined], and if the
    library returns, reading [base10] of the undefined leaf throws. *)
Lemma run_afterReplay_undefined (l : Ledger) leafHistory ownedLeaves tree :
  nth_error ownedLeaves LEAF_IDX = None ->
  run env (afterReplay leafHistory ownedLeaves tree) l
  = match genPathUninserted (leaves tree) None with
    | Ok path =>
        {| outcome := Threw undefinedBase10;
           ledgerAfter := l;
           trace := [EvCall (GenMerklePath tree None) (Ok path);
                     EvLog [LStr "== Generating proof"]] |}
    | Thrown e =>
        {| outcome := Threw e;
           ledgerAfter := l;
           trace := [EvCall (GenMerklePath tree None) (Thrown e)] |}
    end.
Proof.
  intros Hnone. unfold afterReplay. rewrite Hnone. simpl.
  destruct (genPathUninserted (leaves tree) None); reflexivity.
Qed.

(** With a selected index, the path is generated and the prover is called
    for that index and the local root. *)
Lemma run_afterReplay_selected (l : Ledger) leafHistory ownedLeaves tree
  (i : nat) (lf : Leaf) :
  nth_error ownedLeaves LEAF_IDX = Some i ->
  i < length (leaves tree) ->
  nth_error leafHistory i = Some lf ->
  exists path input r rest,
    trace (run env (afterReplay leafHistory ownedLeaves tree) l)
    = EvCall (GenMerklePath tree (Some i)) (Ok path)
        :: EvLog [LStr "== Generating proof"]
        :: EvCall (Groth16FullProve input WASM PROV_KEY) r
        :: rest
    /\ w_root input = root tree
    /\ w_leafIndex input = Some i
    /\ callsOf verifierCall rest.
Proof.
  intros Hsel Hlt Hlf. unfold afterReplay. rewrite Hsel.
  cbn [jsIndex]. rewrite Hlf.
  assert (Hpath : exists path, genMerklePath tree (Some i) = Ok path).
  { unfold genMerklePath. apply Nat.ltb_lt in Hlt. rewrite Hlt. eauto. }
  destruct Hpath as [path Hpath].
  cbn -[proveSanityCheck genMerklePath]. rewrite Hpath.
  cbn -[proveSanityCheck genMerklePath].
  destruct (base10 lf) as [[v P] Q].
  cbn -[proveSanityCheck genMerklePath].
  match goal with
  | |- context [reply env (Groth16FullProve ?inp ?w ?k) l] =>
      destruct (reply env (Groth16FullProve inp w k) l)
        as [[prf pubSigs]|e] eqn:Hprove
  end.
  - do 4 eexists. cbn -[proveSanityCheck]. split; [reflexivity|].
    split; [reflexivity|]. split; [reflexivity|].
    unfold callsOf. do 2 constructor; [exact I|]. constructor; [exact I|].
    apply (@callsIn_trace _ env _ verifierCall).
    apply proveSanityCheck_verifier_calls.
  - do 4 eexists. cbn. split; [reflexivity|].
    split; [reflexivity|]. split; [reflexivity|]. constructor.
Qed.

End SelectionTheory.

(** ** The claims about the gates of the pipeline *)

Section GateClaims.
Context {X : Externals}.
Variable env : Env.

(** An observation that ignores the log, the hasher and the contract
    queries sees only the part of the run that follows the replay. *)
Lemma main_observed {B : Type} (sel : Event -> list B)
  (l : Ledger) poseidon emitted onChain :
  reply env BuildPoseidon l = Ok poseidon ->
  reply env QueryFilterNewLeaf l = Ok emitted ->
  reply env ContractRoot l = Ok onChain ->
  (forall args, sel (EvLog args) = []) ->
  (forall r, sel (EvCall BuildPoseidon r) = []) ->
  (forall c r, contractCall c = true -> sel (EvCall c r) = []) ->
  flat_map sel (trace (run env main l))
  = flat_map sel
      (trace (run env (afterReplay (map fromSol emitted)
                         (ownedFrom (map fromSol emitted) 0)
                         (replay (hashesOf poseidon emitted))) l)).
Proof.
  intros Hps Hq Hr Hlog Hhasher Hcall.
  rewrite (run_main_stages env l Hps Hq Hr). cbn [trace].
  rewrite (run_getDepositHistory env poseidon l Hq).
  rewrite run_checkLeafOwnership.
  rewrite (run_reconstructMerkleTree env _ l Hr).
  cbn [trace app flat_map].
  rewrite !Hlog, Hhasher, !Hcall by reflexivity. reflexivity.
Qed.

(** What the run past the replay shows of the paths and of the prover. *)
Lemma afterReplay_observed (l : Ledger) emitted poseidon :
  let leafHistory := map fromSol emitted in
  let ownedLeaves := ownedFrom leafHistory 0 in
  let tree := replay (hashesOf poseidon emitted) in
  let t := trace (run env (afterReplay leafHistory ownedLeaves tree) l) in
  requestedPaths t = [nth_error ownedLeaves LEAF_IDX]
  /\ provedRoots t = match nth_error ownedLeaves LEAF_IDX with
                     | Some _ => [root tree]
                     | None => []
                     end
  /\ provedIndices t = match nth_error ownedLeaves LEAF_IDX with
                       | Some i => [Some i]
                       | None => []
                       end.
Proof.
  intros leafHistory ownedLeaves tree t. subst t.
  destruct (nth_error ownedLeaves LEAF_IDX) as [i|] eqn:Hsel.
  - pose proof (owned_in_history _ _ Hsel) as Hlt.
    destruct (nth_error leafHistory i) as [lf|] eqn:Hlf;
      [|apply nth_error_None in Hlf; lia].
    assert (Hin : i < length (leaves tree)).
    { subst tree. rewrite replay_eq. unfold hashesOf. cbn [leaves].
      now rewrite length_map. }
    destruct (@run_afterReplay_selected _ env l leafHistory ownedLeaves
                tree i lf Hsel Hin Hlf)
      as (path & input & r & rest & -> & Hrt & Hidx & Hquiet).
    apply verifier_trace_quiet in Hquiet.
    destruct Hquiet as (Hq1 & Hq2 & Hq3 & _).
    unfold requestedPaths, provedRoots, provedIndices in *.
    cbn [flat_map app]. rewrite Hq1, Hq2, Hq3, Hrt, Hidx. auto.
  - rewrite (@run_afterReplay_undefined _ env l leafHistory ownedLeaves
               tree Hsel).
    now destruct (genPathUninserted _ None).
Qed.

(** What the replay stage logs and calls is part of the run. *)
Lemma replay_stage_in_main (l : Ledger) poseidon emitted onChain (ev : Event) :
  reply env BuildPoseidon l = Ok poseidon ->
  reply env QueryFilterNewLeaf l = Ok emitted ->
  reply env ContractRoot l = Ok onChain ->
  In ev (trace (run env (reconstructMerkleTree (hashesOf poseidon emitted)) l))
  -> In ev (trace (run env main l)).
Proof.
  intros Hps Hq Hr Hin.
  rewrite (run_main_stages env l Hps Hq Hr). cbn [trace].
  right. do 2 (apply in_or_app; right). apply in_or_app. now left.
Qed.

(** Reads an observation of the whole run off the run past the replay. *)
Ltac past_replay Hps Hq Hr :=
  match goal with
  | |- flat_map ?sel (trace (run ?e main ?l)) = _ =>
      apply (main_observed sel l Hps Hq Hr);
      [ reflexivity
      | reflexivity
      | let c := fresh "c" in
        let Hc := fresh "Hc" in
        intros c ? Hc; destruct c; first [reflexivity | discriminate Hc] ]
  end.

(** C2, as the script has it.  When the root of the locally reconstructed
    accumulator differs from the root the ledger reports, the run does not
    fail on it: the comparison is logged as [false], path generation is
    requested next for the selection [ownedLeaves[LEAF_IDX]], and when
    that selection exists the proving engine is called with the local
    root. *)
Theorem root_mismatch_is_only_logged (l : Ledger)
  (poseidon : Poseidon) (emitted : list SolLeaf) (onChain : Z)
  (Hposeidon : reply env BuildPoseidon l = Ok poseidon)
  (Hquery : reply env QueryFilterNewLeaf l = Ok emitted)
  (Hroot : reply env ContractRoot l = Ok onChain)
  (Hdiffer : root (replay (hashesOf poseidon emitted)) <> onChain) :
  In (EvLog [LStr "- Same as root stored on contract?"; LBool false])
    (trace (run env main l))
  /\ requestedPaths (trace (run env main l))
     = [nth_error (ownedFrom (map fromSol emitted) 0) LEAF_IDX]
  /\ provedRoots (trace (run env main l))
     = match nth_error (ownedFrom (map fromSol emitted) 0) LEAF_IDX with
       | Some _ => [root (replay (hashesOf poseidon emitted))]
       | None => []
       end.
Proof.
  pose proof (afterReplay_observed l emitted poseidon) as (Hp & Hr & _).
  split; [|split].
  - apply (replay_stage_in_main Hposeidon Hquery Hroot).
    rewrite (run_reconstructMerkleTree env _ l Hroot). cbn [trace].
    apply Z.eqb_neq in Hdiffer. rewrite Hdiffer. simpl. auto.
  - rewrite <- Hp. unfold requestedPaths.
    past_replay Hposeidon Hquery Hroot.
  - rewrite <- Hr. unfold provedRoots.
    past_replay Hposeidon Hquery Hroot.
Qed.

(** How a run without a selection ends: with the exception of the path
    generation or, if that returns, with the TypeError of reading [base10]
    of the undefined leaf. *)
Lemma no_selection_outcome (l : Ledger) poseidon emitted onChain :
  reply env BuildPoseidon l = Ok poseidon ->
  reply env QueryFilterNewLeaf l = Ok emitted ->
  reply env ContractRoot l = Ok onChain ->
  nth_error (ownedFrom (map fromSol emitted) 0) LEAF_IDX = None ->
  outcome (run env main l)
  = match genPathUninserted (hashesOf poseidon emitted) None with
    | Ok _ => Threw undefinedBase10
    | Thrown e => Threw e
    end.
Proof.
  intros Hps Hq Hr Hnone.
  rewrite (run_main_stages env l Hps Hq Hr). cbn [outcome].
  rewrite run_afterReplay_undefined by exact Hnone.
  rewrite replay_eq. cbn [leaves].
  now destruct (genPathUninserted _ None).
Qed.

(** C3, as the script has it.  When the scanner finds no owned record it
    returns the empty sequence and the run raises nothing at that point:
    the accumulator is replayed, the ledger root is queried for it, and a
    path is requested for the selection [ownedLeaves[LEAF_IDX]], which is
    undefined.  The proving engine is not called in such a run. *)
Theorem no_owned_record_reaches_path_generation (l : Ledger)
  (poseidon : Poseidon) (emitted : list SolLeaf) (onChain : Z)
  (Hposeidon : reply env BuildPoseidon l = Ok poseidon)
  (Hquery : reply env QueryFilterNewLeaf l = Ok emitted)
  (Hroot : reply env ContractRoot l = Ok onChain)
  (Hnone : reduce ownedStep (map fromSol emitted) [] = []) :
  outcome (run env (checkLeafOwnership (map fromSol emitted)) l) = Returned []
  /\ In (EvCall ContractRoot (Ok onChain)) (trace (run env main l))
  /\ requestedPaths (trace (run env main l)) = [None]
  /\ provedIndices (trace (run env main l)) = []
  /\ existsb isFullProve (trace (run env main l)) = false.
Proof.
  rewrite reduce_ownedStep in Hnone.
  pose proof (afterReplay_observed l emitted poseidon) as (Hp & _ & Hi).
  cbv zeta in Hp, Hi. rewrite Hnone in Hp, Hi. cbn [nth_error LEAF_IDX] in *.
  assert (Hproved : provedIndices (trace (run env main l)) = []).
  { rewrite <- Hi, <- Hnone. unfold provedIndices.
    past_replay Hposeidon Hquery Hroot. }
  split; [|split; [|split; [|split]]].
  - rewrite run_checkLeafOwnership. cbn [outcome]. now rewrite Hnone.
  - apply (replay_stage_in_main Hposeidon Hquery Hroot).
    rewrite (run_reconstructMerkleTree env _ l Hroot). cbn [trace].
    simpl. auto.
  - rewrite <- Hp, <- Hnone. unfold requestedPaths.
    past_replay Hposeidon Hquery Hroot.
  - exact Hproved.
  - apply provedIndices_nil. exact Hproved.
Qed.

(** [proveSanityCheck] is no gate of its own: on a failed verification it
    logs the verdict and returns like on a successful one, so whatever is
    sequenced after it runs. *)
Lemma proveSanityCheck_returns_on_failure (l : Ledger) prf pubSigs text vKey :
  reply env (ReadFileSync VERIF_KEY "utf8") l = Ok text ->
  parseVKey text = Ok vKey ->
  reply env (Groth16Verify vKey pubSigs prf) l = Ok false ->
  outcome (run env (proveSanityCheck prf pubSigs) l) = Returned tt
  /\ In (EvLog [LStr "- Invalid proof"])
       (trace (run env (proveSanityCheck prf pubSigs) l)).
Proof.
  intros Hread Hparse Hverify. unfold proveSanityCheck. simpl.
  rewrite Hread. simpl. rewrite Hparse. simpl. rewrite Hverify. simpl.
  split; [reflexivity|]. do 5 right. now left.
Qed.

(** Whatever the bundle, [sendProofTx] passes the constant [LEAF_IDX] to
    [withdraw]. *)
Lemma sendProofTx_withdraws_constant (l : Ledger) prf pubSigs :
  Forall (eq LEAF_IDX)
    (withdrawnIndices (trace (run env (sendProofTx prf pubSigs) l))).
Proof.
  unfold sendProofTx. simpl.
  destruct (reply env SignerGetBalance l) as [before|e]; simpl;
    [|constructor].
  destruct (exportCallDataGroth16 prf pubSigs) as [cd|e]; simpl;
    [|constructor].
  destruct (reply env (ContractWithdraw _ _ _ _ _) l) as [tx|e]; simpl;
    [|repeat constructor].
  constructor; [reflexivity|].
  destruct (reply env SignerGetBalance _) as [afterwards|e]; simpl;
    constructor.
Qed.

End GateClaims.

(** ** The script on the concrete instance *)

Section OnTheInstance.
Import Demo.
Local Existing Instance demoX.

(** The leaf hashes of [threeDeposits]. *)
Example hashes_of_threeDeposits :
  hashesOf tt threeDeposits = [38; 73; 119]%Z.
Proof. reflexivity. Qed.

(** The scanner on [threeDeposits]: the first and the third are owned. *)
Example owned_of_threeDeposits :
  reduce ownedStep (map fromSol threeDeposits) [] = [0; 2].
Proof. reflexivity. Qed.

Lemma getDepositHistory_hashes_by_position_witness :
  reply (demoEnv true) QueryFilterNewLeaf agreeingLedger = Ok threeDeposits
  /\ exists leafHistory leafHashes,
      outcome (run (demoEnv true) (getDepositHistory tt) agreeingLedger)
      = Returned (leafHistory, leafHashes)
      /\ leafHistory = map fromSol threeDeposits
      /\ length leafHistory = length leafHashes
      /\ (forall i,
             nth_error leafHashes i
             = option_map (fun lf => poseidonHash lf tt)
                 (nth_error leafHistory i))
      /\ ledgerAfter (run (demoEnv true) (getDepositHistory tt)
                        agreeingLedger) = agreeingLedger.
Proof.
  split; [reflexivity|].
  apply (getDepositHistory_hashes_by_position (demoEnv true) tt
           agreeingLedger).
  reflexivity.
Defined.

Lemma root_is_function_of_sequence_witness :
  outcome (run (demoEnv true) (reconstructMerkleTree [38; 73; 119]%Z)
             agreeingLedger)
  = Returned (replay [38; 73; 119]%Z)
  /\ outcome (run (demoEnv false) (reconstructMerkleTree [38; 73; 119]%Z)
                disagreeingLedger)
     = Returned (replay [38; 73; 119]%Z)
  /\ root (replay [38; 73; 119]%Z)
     = merkleRoot TREE_DEPTH NOTHING_UP_MY_SLEEVE [38; 73; 119]%Z.
Proof.
  split; [reflexivity|]. split; [reflexivity|].
  apply (root_is_function_of_sequence (demoEnv true) (demoEnv false)
           agreeingLedger disagreeingLedger [38; 73; 119]%Z
           (t := replay [38; 73; 119]%Z) (t' := replay [38; 73; 119]%Z));
    reflexivity.
Defined.

Lemma genMerklePath_recomputes_root_witness :
  nth_error (leaves (replay [38; 73; 119]%Z)) 2 = Some 119%Z
  /\ 2 < 2 ^ depth (replay [38; 73; 119]%Z)
  /\ exists path,
      genMerklePath (replay [38; 73; 119]%Z) (Some 2) = Ok path
      /\ length (pathElements path) = depth (replay [38; 73; 119]%Z)
      /\ length (indices path) = depth (replay [38; 73; 119]%Z)
      /\ recomputeFromPath 119%Z path = root (replay [38; 73; 119]%Z).
Proof.
  assert (Hpos : 2 < 2 ^ depth (replay [38; 73; 119]%Z)).
  { apply position_below_depth. vm_compute. lia. }
  split; [reflexivity|]. split; [exact Hpos|].
  apply (@genMerklePath_recomputes_root demoX (replay [38; 73; 119]%Z) 2
           119%Z); [reflexivity|exact Hpos].
Defined.

Lemma failed_verification_never_submits_witness :
  existsb isFailedVerify (trace (run (demoEnv false) main agreeingLedger))
  = true
  /\ existsb isWithdraw (trace (run (demoEnv false) main agreeingLedger))
     = false
  /\ ledgerAfter (run (demoEnv false) main agreeingLedger) = agreeingLedger.
Proof.
  split; [vm_compute; reflexivity|].
  apply (failed_verification_never_submits (demoEnv false) agreeingLedger).
  vm_compute. reflexivity.
Defined.

(** C2, as stated, fails: on a ledger whose stored root differs from the
    locally reconstructed one the run calls the proving engine and ends
    with exit code 0; no exception is raised. *)
Lemma root_mismatch_counterexample :
  root (replay (hashesOf tt threeDeposits)) <> storedRoot disagreeingLedger
  /\ reply (demoEnv true) ContractRoot disagreeingLedger
     = Ok (storedRoot disagreeingLedger)
  /\ existsb isFullProve (trace (run (demoEnv true) main disagreeingLedger))
     = true
  /\ outcome (run (demoEnv true) main disagreeingLedger) = Exited 0.
Proof.
  split; [vm_compute; discriminate|].
  split; [reflexivity|]. split; vm_compute; reflexivity.
Qed.

Lemma root_mismatch_is_only_logged_witness :
  root (replay (hashesOf tt threeDeposits)) <> 0%Z
  /\ In (EvLog [LStr "- Same as root stored on contract?"; LBool false])
       (trace (run (demoEnv true) main disagreeingLedger))
  /\ requestedPaths (trace (run (demoEnv true) main disagreeingLedger))
     = [nth_error (ownedFrom (map fromSol threeDeposits) 0) LEAF_IDX]
  /\ provedRoots (trace (run (demoEnv true) main disagreeingLedger))
     = match nth_error (ownedFrom (map fromSol threeDeposits) 0) LEAF_IDX
       with
       | Some _ => [root (replay (hashesOf tt threeDeposits))]
       | None => []
       end.
Proof.
  assert (Hdiffer : root (replay (hashesOf tt threeDeposits)) <> 0%Z).
  { vm_compute. lia. }
  split; [exact Hdiffer|].
  apply (root_mismatch_is_only_logged (demoEnv true) disagreeingLedger
           (poseidon := tt) (emitted := threeDeposits) (onChain := 0%Z));
    [reflexivity|reflexivity|reflexivity|exact Hdiffer].
Defined.

(** C3, as stated, fails: on the empty history the scanner returns the
    empty sequence, the run goes on to request a path for the undefined
    selection, and the exception that ends it is a TypeError, not an
    OwnershipError. *)
Lemma no_owned_record_counterexample :
  outcome (run (demoEnv true) (checkLeafOwnership []) emptyLedger)
  = Returned []
  /\ requestedPaths (trace (run (demoEnv true) main emptyLedger)) = [None]
  /\ thrownName (outcome (run (demoEnv true) main emptyLedger))
     = Some "TypeError"
  /\ thrownName (outcome (run (demoEnv true) main emptyLedger))
     <> Some "OwnershipError".
Proof.
  split; [reflexivity|]. split; [vm_compute; reflexivity|].
  split; [vm_compute; reflexivity|]. vm_compute. discriminate.
Qed.

Lemma no_owned_record_reaches_path_generation_witness :
  reduce ownedStep (map fromSol (deposits emptyLedger)) [] = []
  /\ outcome (run (demoEnv true)
                (checkLeafOwnership (map fromSol (deposits emptyLedger)))
                emptyLedger) = Returned []
  /\ In (EvCall ContractRoot (Ok (storedRoot emptyLedger)))
       (trace (run (demoEnv true) main emptyLedger))
  /\ requestedPaths (trace (run (demoEnv true) main emptyLedger)) = [None]
  /\ provedIndices (trace (run (demoEnv true) main emptyLedger)) = []
  /\ existsb isFullProve (trace (run (demoEnv true) main emptyLedger))
     = false.
Proof.
  split; [reflexivity|].
  apply (no_owned_record_reaches_path_generation (demoEnv true) emptyLedger
           (poseidon := tt) (emitted := deposits emptyLedger)
           (onChain := storedRoot emptyLedger)); reflexivity.
Defined.


End OnTheInstance.

(** * Further properties of the script *)

(** ** Budgets of calls and endings of runs *)

Section BudgetTheory.
Context {X : Externals}.
Variable env : Env.

Lemma atMost_count {A : Type} (k : Kind) (p : Prog A) :
  forall n l, atMost k p n -> countKind k (trace (run env p l)) <= n.
Proof.
  unfold countKind.
  induction p as [a|e|code|args rest IH|c rest IH]; intros n l Hp;
    simpl in *; try lia.
  - now apply IH.
  - destruct (Kind_eqb k (kindOf c)) eqn:Hk.
    + destruct n as [|m]; [contradiction|].
      destruct (answer env c l) as [v|e]; simpl; rewrite Hk; simpl.
      * apply le_n_S. now apply IH.
      * lia.
    + destruct (answer env c l) as [v|e]; simpl; rewrite Hk; simpl.
      * now apply IH.
      * lia.
Qed.

Lemma exitsOrThrows_outcome {A : Type} (p : Prog A) :
  exitsOrThrows p ->
  forall l, outcome (run env p l) = Exited 0
            \/ exists e, outcome (run env p l) = Threw e.
Proof.
  induction p as [a|e|code|args rest IH|c rest IH]; simpl; intros Hp l.
  - contradiction.
  - right. now exists e.
  - left. now subst code.
  - now apply IH.
  - destruct (answer env c l) as [v|e]; simpl.
    + now apply IH.
    + right. now exists e.
Qed.

(** Walks through the statements of a program, splitting on the values the
    script branches on. *)
Ltac walk :=
  repeat first
    [ exact I
    | reflexivity
    | progress intros
    | progress cbn
    | match goal with
      | |- context [match jsIndex ?h ?i with _ => _ end] =>
          destruct (jsIndex h i)
      | |- context [let '(_, _) := base10 ?lf in _] =>
          destruct (base10 lf) as [[? ?] ?]
      | |- context [lift ?r] => destruct r
      | v : bool |- _ => destruct v
      | v : (_ * _)%type |- _ => destruct v
      end ].

Lemma main_budget (k : Kind) :
  atMost k main (match k with KWithdraw | KBalance => 0 | _ => 1 end).
Proof. destruct k; unfold main; walk. Qed.

Lemma main_exitsOrThrows : exitsOrThrows main.
Proof. unfold main; walk. Qed.

End BudgetTheory.

(** ** Runs that stop early, and runs that complete *)

Section RunShapes.
Context {X : Externals}.
Variable env : Env.

Lemma countKind_app (k : Kind) (t t' : list Event) :
  countKind k (t ++ t') = countKind k t + countKind k t'.
Proof. unfold countKind. now rewrite filter_app, length_app. Qed.

Lemma genGroth16Proof_defined lf lfIdx rt priv path :
  genGroth16Proof (Some lf) lfIdx rt priv path
  = Log [LStr "== Generating proof"]
      (Call (Groth16FullProve (witnessOf lf lfIdx rt priv path) WASM PROV_KEY)
         (fun r => Log [LStr "- Success"] (Log [LStr "=="] (Ret r)))).
Proof.
  unfold genGroth16Proof, witnessOf.
  destruct (base10 lf) as [[v P] Q]. reflexivity.
Qed.

Lemma run_main_no_hasher (l : Ledger) e :
  reply env BuildPoseidon l = Thrown e ->
  run env main l
  = {| outcome := Threw e; ledgerAfter := l;
       trace := [EvCall BuildPoseidon (Thrown e)] |}.
Proof.
  intros Hps. rewrite main_unfold.
  change (run env (bind (call BuildPoseidon) ?f) l)
    with (match answer env BuildPoseidon l with
          | Ok v => after (EvCall BuildPoseidon (answer env BuildPoseidon l))
                      (run env (f v) l)
          | Thrown e => mkRun (Threw e) l
                          [EvCall BuildPoseidon (answer env BuildPoseidon l)]
          end).
  change (answer env BuildPoseidon l) with (reply env BuildPoseidon l).
  now rewrite Hps.
Qed.

Lemma run_getDepositHistory_failure (l : Ledger) poseidon e :
  reply env QueryFilterNewLeaf l = Thrown e ->
  run env (getDepositHistory poseidon) l
  = {| outcome := Threw e; ledgerAfter := l;
       trace := [EvLog [LStr "== Fetching deposit history"];
                 EvCall QueryFilterNewLeaf (Thrown e)] |}.
Proof.
  intros Hq. unfold getDepositHistory. simpl. unfold after. simpl.
  now rewrite Hq.
Qed.

Lemma run_main_no_history (l : Ledger) poseidon e :
  reply env BuildPoseidon l = Ok poseidon ->
  reply env QueryFilterNewLeaf l = Thrown e ->
  run env main l
  = {| outcome := Threw e; ledgerAfter := l;
       trace := [EvCall BuildPoseidon (Ok poseidon);
                 EvLog [LStr "== Fetching deposit history"];
                 EvCall QueryFilterNewLeaf (Thrown e)] |}.
Proof.
  intros Hps Hq. rewrite main_unfold.
  change (run env (bind (call BuildPoseidon) ?f) l)
    with (match answer env BuildPoseidon l with
          | Ok v => after (EvCall BuildPoseidon (answer env BuildPoseidon l))
                      (run env (f v) l)
          | Thrown e => mkRun (Threw e) l
                          [EvCall BuildPoseidon (answer env BuildPoseidon l)]
          end).
  change (answer env BuildPoseidon l) with (reply env BuildPoseidon l).
  rewrite Hps.
  rewrite run_bind, (run_getDepositHistory_failure l poseidon Hq).
  reflexivity.
Qed.

Lemma run_reconstructMerkleTree_failure (l : Ledger) leafHashes e :
  reply env ContractRoot l = Thrown e ->
  run env (reconstructMerkleTree leafHashes) l
  = {| outcome := Threw e; ledgerAfter := l;
       trace := [EvLog [LStr "== Reconstructing Merkle tree"];
                 EvLog [LStr "- Root:"; LBig (root (replay leafHashes))];
                 EvCall ContractRoot (Thrown e)] |}.
Proof.
  intros Hr. unfold reconstructMerkleTree. simpl. unfold after. simpl.
  now rewrite Hr.
Qed.

Lemma run_main_no_root (l : Ledger) poseidon emitted e :
  reply env BuildPoseidon l = Ok poseidon ->
  reply env QueryFilterNewLeaf l = Ok emitted ->
  reply env ContractRoot l = Thrown e ->
  run env main l
  = {| outcome := Threw e; ledgerAfter := l;
       trace :=
         EvCall BuildPoseidon (Ok poseidon)
           :: trace (run env (getDepositHistory poseidon) l)
           ++ trace (run env (checkLeafOwnership (map fromSol emitted)) l)
           ++ trace (run env (reconstructMerkleTree
                                (hashesOf poseidon emitted)) l) |}.
Proof.
  intros Hps Hq Hr. rewrite main_unfold.
  change (run env (bind (call BuildPoseidon) ?f) l)
    with (match answer env BuildPoseidon l with
          | Ok v => after (EvCall BuildPoseidon (answer env BuildPoseidon l))
                      (run env (f v) l)
          | Thrown e => mkRun (Threw e) l
                          [EvCall BuildPoseidon (answer env BuildPoseidon l)]
          end).
  change (answer env BuildPoseidon l) with (reply env BuildPoseidon l).
  rewrite Hps.
  rewrite run_bind, (run_getDepositHistory env poseidon l Hq).
  unfold andThen. cbn [outcome ledgerAfter trace].
  rewrite run_bind, run_checkLeafOwnership.
  unfold andThen. cbn [outcome ledgerAfter trace].
  rewrite run_bind, (run_reconstructMerkleTree_failure l _ Hr).
  unfold andThen, after. cbn [outcome ledgerAfter trace].
  reflexivity.
Qed.

(** The trace of the stages up to the replay, written out. *)
Lemma stages_trace (l : Ledger) poseidon emitted onChain :
  reply env QueryFilterNewLeaf l = Ok emitted ->
  reply env ContractRoot l = Ok onChain ->
  trace (run env (getDepositHistory poseidon) l)
    ++ trace (run env (checkLeafOwnership (map fromSol emitted)) l)
    ++ trace (run env (reconstructMerkleTree (hashesOf poseidon emitted)) l)
  = [EvLog [LStr "== Fetching deposit history"];
     EvCall QueryFilterNewLeaf (Ok emitted);
     EvLog [LTpl "- Retrieved " (length (hashesOf poseidon emitted))
              " leaves"];
     EvLog [LStr "=="];
     EvLog [LStr "== Checking leaves for ownership"];
     EvLog [LTpl "- Found " (length (ownedFrom (map fromSol emitted) 0))
              " leaves recoverable by the privKey."];
     EvLog [LStr "=="];
     EvLog [LStr "== Reconstructing Merkle tree"];
     EvLog [LStr "- Root:"; LBig (root (replay (hashesOf poseidon emitted)))];
     EvCall ContractRoot (Ok onChain);
     EvLog [LStr "- Same as root stored on contract?";
            LBool (root (replay (hashesOf poseidon emitted)) =? onChain)%Z];
     EvLog [LStr "=="]].
Proof.
  intros Hq Hr.
  rewrite (run_getDepositHistory env poseidon l Hq).
  rewrite run_checkLeafOwnership.
  rewrite (run_reconstructMerkleTree env _ l Hr).
  reflexivity.
Qed.

End RunShapes.

(** ** The run past the replay, case by case *)

Section PastReplay.
Context {X : Externals}.
Variable env : Env.

(** The verifier hands nothing to the prover. *)
Lemma verifier_trace_no_input (t : list Event) :
  callsOf verifierCall t -> proverInputs t = [].
Proof.
  unfold callsOf, proverInputs.
  induction 1 as [|ev t Hev _ IH]; simpl; [reflexivity|].
  rewrite IH. destruct ev as [args|c r]; [reflexivity|].
  destruct c; simpl in Hev; try contradiction; reflexivity.
Qed.

(** What reaches the prover: the witness of the selected leaf, if the
    selection is defined and its path was generated. *)
Lemma afterReplay_proverInputs (l : Ledger) leafHistory ownedLeaves tree :
  proverInputs (trace (run env (afterReplay leafHistory ownedLeaves tree) l))
  = match genMerklePath tree (nth_error ownedLeaves LEAF_IDX),
          jsIndex leafHistory (nth_error ownedLeaves LEAF_IDX) with
    | Ok path, Some lf =>
        [witnessOf lf (nth_error ownedLeaves LEAF_IDX) (root tree)
           TREASURY_PRIVKEY path]
    | _, _ => []
    end.
Proof.
  unfold afterReplay.
  generalize (nth_error ownedLeaves LEAF_IDX) as idx. intros idx.
  cbn -[genMerklePath genGroth16Proof proveSanityCheck].
  destruct (genMerklePath tree idx) as [path|e]; [|reflexivity].
  destruct (jsIndex leafHistory idx) as [lf|]; [|reflexivity].
  rewrite genGroth16Proof_defined.
  cbn -[genMerklePath proveSanityCheck witnessOf].
  destruct (reply env (Groth16FullProve _ WASM PROV_KEY) l)
    as [[prf pubSigs]|e]; [|reflexivity].
  cbn -[genMerklePath proveSanityCheck witnessOf]. f_equal.
  apply verifier_trace_no_input.
  apply (@callsIn_trace _ env _ verifierCall).
  apply proveSanityCheck_verifier_calls.
Qed.



End PastReplay.

(** ** Failures of the ledger reads *)

Section ReadFailures.
Context {X : Externals}.
Variable env : Env.

(** X1.  When the query of the [NewLeaf] events throws, [getDepositHistory]
    throws that exception after the one call, and the run of the entry
    point ends with it: the ledger root is not queried, no path is
    requested, and neither the prover nor the verifier is called. *)
Theorem retrieval_failure_stops_the_run (l : Ledger) (poseidon : Poseidon)
  (e : JsError)
  (Hposeidon : reply env BuildPoseidon l = Ok poseidon)
  (Hquery : reply env QueryFilterNewLeaf l = Thrown e) :
  outcome (run env (getDepositHistory poseidon) l) = Threw e
  /\ countKind KQuery (trace (run env (getDepositHistory poseidon) l)) = 1
  /\ outcome (run env main l) = Threw e
  /\ countKind KRoot (trace (run env main l)) = 0
  /\ countKind KGenPath (trace (run env main l)) = 0
  /\ countKind KProve (trace (run env main l)) = 0
  /\ countKind KVerify (trace (run env main l)) = 0.
Proof.
  rewrite (run_getDepositHistory_failure env l poseidon Hquery).
  rewrite (run_main_no_history env l Hposeidon Hquery).
  repeat split.
Qed.

(** X2.  When the query of the ledger root throws, [reconstructMerkleTree]
    throws that exception and returns no tree, and the run of the entry
    point ends with it after the history was fetched and scanned: no path
    is requested, and neither the prover nor the verifier is called. *)
Theorem root_query_failure_stops_the_run (l : Ledger) (poseidon : Poseidon)
  (emitted : list SolLeaf) (e : JsError)
  (Hposeidon : reply env BuildPoseidon l = Ok poseidon)
  (Hquery : reply env QueryFilterNewLeaf l = Ok emitted)
  (Hroot : reply env ContractRoot l = Thrown e) :
  outcome (run env (reconstructMerkleTree (hashesOf poseidon emitted)) l)
  = Threw e
  /\ outcome (run env main l) = Threw e
  /\ countKind KQuery (trace (run env main l)) = 1
  /\ countKind KGenPath (trace (run env main l)) = 0
  /\ countKind KProve (trace (run env main l)) = 0
  /\ countKind KVerify (trace (run env main l)) = 0.
Proof.
  rewrite (run_main_no_root env l Hposeidon Hquery Hroot).
  rewrite (run_getDepositHistory env poseidon l Hquery).
  rewrite run_checkLeafOwnership.
  rewrite (run_reconstructMerkleTree_failure env l _ Hroot).
  repeat split.
Qed.

End ReadFailures.

(** ** What every run of the entry point does *)

Section EveryRun.
Context {X : Externals}.
Variable env : Env.

(** X10.  No run of the entry point returns: it ends with
    [process.exit(0)] or with an exception; no other exit code occurs. *)
Theorem main_exits_zero_or_throws (l : Ledger) :
  outcome (run env main l) = Exited 0
  \/ exists e, outcome (run env main l) = Threw e.
Proof. apply exitsOrThrows_outcome. apply main_exitsOrThrows. Qed.

(** X11.  In every run of the entry point each external operation is
    called at most once, whatever the answers: nothing is retried. *)
Theorem main_calls_each_operation_at_most_once (l : Ledger) (k : Kind) :
  countKind k (trace (run env main l)) <= 1.
Proof.
  apply Nat.le_trans
    with (match k with KWithdraw | KBalance => 0 | _ => 1 end).
  - apply atMost_count. apply main_budget.
  - destruct k; lia.
Qed.

End EveryRun.

(** ** The scanner on a growing history *)

Section GrowingHistory.
Context {X : Externals}.

Lemma ownedFrom_shift (history : list Leaf) (n : nat) :
  forall i, ownedFrom history (n + i) = map (Nat.add n) (ownedFrom history i).
Proof.
  induction history as [|lf rest IH]; intros i; simpl; [reflexivity|].
  replace (S (n + i)) with (n + S i) by lia. rewrite IH.
  now destruct (ownedBy lf).
Qed.

Lemma ownedFrom_app (history more : list Leaf) :
  forall i,
    ownedFrom (history ++ more) i
    = ownedFrom history i ++ ownedFrom more (length history + i).
Proof.
  induction history as [|lf rest IH]; intros i; simpl; [reflexivity|].
  rewrite IH. replace (length rest + S i) with (S (length rest + i)) by lia.
  now destruct (ownedBy lf).
Qed.

(** The run of the entry point shows the selection [ownedLeaves[LEAF_IDX]]
    as its one path request. *)
Lemma main_requestedPaths (env : Env) (l : Ledger) poseidon emitted onChain :
  reply env BuildPoseidon l = Ok poseidon ->
  reply env QueryFilterNewLeaf l = Ok emitted ->
  reply env ContractRoot l = Ok onChain ->
  requestedPaths (trace (run env main l))
  = [nth_error (ownedFrom (map fromSol emitted) 0) LEAF_IDX]
  /\ provedIndices (trace (run env main l))
     = match nth_error (ownedFrom (map fromSol emitted) 0) LEAF_IDX with
       | Some i => [Some i]
       | None => []
       end.
Proof.
  intros Hps Hq Hr.
  pose proof (afterReplay_observed env l emitted poseidon) as (Hp & _ & Hi).
  cbv zeta in Hp, Hi. rewrite <- Hp, <- Hi. split.
  - apply (main_observed env _ l Hps Hq Hr); try reflexivity.
    intros c r Hc. destruct c; first [reflexivity | discriminate Hc].
  - apply (main_observed env _ l Hps Hq Hr); try reflexivity.
    intros c r Hc. destruct c; first [reflexivity | discriminate Hc].
Qed.

(** X3.  The scanner is stable under appended deposits: on a history
    followed by more records it reports the indices it reports for the
    history, followed by those of the added records shifted by the length
    of the history. *)
Theorem scanner_extends_with_history (env : Env) (l : Ledger)
  (history more : list Leaf) :
  exists owned added,
    outcome (run env (checkLeafOwnership history) l) = Returned owned
    /\ outcome (run env (checkLeafOwnership more) l) = Returned added
    /\ outcome (run env (checkLeafOwnership (history ++ more)) l)
       = Returned (owned ++ map (Nat.add (length history)) added).
Proof.
  exists (ownedFrom history 0), (ownedFrom more 0).
  rewrite !run_checkLeafOwnership. cbn [outcome].
  rewrite ownedFrom_app, ownedFrom_shift. auto.
Qed.

(** X4.  Once the entry point has selected a leaf index, later deposits do
    not change the selection: a run on the same events followed by more
    events requests the path of the same index and proves for it. *)
Theorem selection_survives_new_deposits (env env' : Env) (l l' : Ledger)
  (poseidon poseidon' : Poseidon) (emitted more : list SolLeaf)
  (onChain onChain' : Z) (i : nat)
  (Hposeidon : reply env BuildPoseidon l = Ok poseidon)
  (Hquery : reply env QueryFilterNewLeaf l = Ok emitted)
  (Hroot : reply env ContractRoot l = Ok onChain)
  (Hposeidon' : reply env' BuildPoseidon l' = Ok poseidon')
  (Hquery' : reply env' QueryFilterNewLeaf l' = Ok (emitted ++ more))
  (Hroot' : reply env' ContractRoot l' = Ok onChain')
  (Hselected : requestedPaths (trace (run env main l)) = [Some i]) :
  requestedPaths (trace (run env' main l')) = [Some i]
  /\ provedIndices (trace (run env' main l')) = [Some i].
Proof.
  destruct (main_requestedPaths env l Hposeidon Hquery Hroot) as (Hp & _).
  destruct (main_requestedPaths env' l' Hposeidon' Hquery' Hroot')
    as (Hp' & Hi').
  rewrite Hp in Hselected.
  assert (Hsel : nth_error (ownedFrom (map fromSol emitted) 0) LEAF_IDX
                 = Some i) by congruence.
  assert (Hsel' : nth_error (ownedFrom (map fromSol (emitted ++ more)) 0)
                    LEAF_IDX = Some i).
  { rewrite map_app, ownedFrom_app, nth_error_app1; [exact Hsel|].
    apply nth_error_Some. congruence. }
  rewrite Hp', Hi', Hsel'. auto.
Qed.

End GrowingHistory.

(** ** The selected leaf and the witness of the prover *)

Section SelectedLeaf.
Context {X : Externals}.
Variable env : Env.

Lemma genMerklePath_inserted (t : IncrementalQuinTree) (i : nat) :
  i < length (leaves t) -> exists path, genMerklePath t (Some i) = Ok path.
Proof.
  intros Hlt. unfold genMerklePath. apply Nat.ltb_lt in Hlt. rewrite Hlt.
  eauto.
Qed.



Lemma fewer_than_two (owned : list nat) :
  length owned < 2 -> nth_error owned LEAF_IDX = None.
Proof.
  destruct owned as [|first [|second rest]]; simpl; try lia; reflexivity.
Qed.

Lemma main_count (l : Ledger) poseidon emitted onChain (k : Kind) :
  reply env BuildPoseidon l = Ok poseidon ->
  reply env QueryFilterNewLeaf l = Ok emitted ->
  reply env ContractRoot l = Ok onChain ->
  countKind k (trace (run env main l))
  = match k with KPoseidon | KQuery | KRoot => 1 | _ => 0 end
    + countKind k
        (trace (run env (afterReplay (map fromSol emitted)
                           (ownedFrom (map fromSol emitted) 0)
                           (replay (hashesOf poseidon emitted))) l)).
Proof.
  intros Hps Hq Hr. rewrite (run_main_stages env l Hps Hq Hr).
  cbn [trace].
  rewrite (run_getDepositHistory env poseidon l Hq).
  rewrite run_checkLeafOwnership.
  rewrite (run_reconstructMerkleTree env _ l Hr).
  cbn [trace app].
  destruct k; reflexivity.
Qed.

Lemma main_proverInputs (l : Ledger) poseidon emitted onChain :
  reply env BuildPoseidon l = Ok poseidon ->
  reply env QueryFilterNewLeaf l = Ok emitted ->
  reply env ContractRoot l = Ok onChain ->
  proverInputs (trace (run env main l))
  = proverInputs
      (trace (run env (afterReplay (map fromSol emitted)
                         (ownedFrom (map fromSol emitted) 0)
                         (replay (hashesOf poseidon emitted))) l)).
Proof.
  intros Hps Hq Hr. unfold proverInputs.
  apply (main_observed env _ l Hps Hq Hr); try reflexivity.
  intros c r Hc. destruct c; first [reflexivity | discriminate Hc].
Qed.

(** X6.  The prover is called exactly when a second owned leaf exists, and
    then once, with the witness built from that leaf, its index, the path
    the rebuilt tree generated for that index and the root of that tree;
    the index is the index of an inserted leaf. *)
Theorem prover_input_wiring (l : Ledger) (poseidon : Poseidon)
  (emitted : list SolLeaf) (onChain : Z)
  (Hposeidon : reply env BuildPoseidon l = Ok poseidon)
  (Hquery : reply env QueryFilterNewLeaf l = Ok emitted)
  (Hroot : reply env ContractRoot l = Ok onChain) :
  match nth_error (reduce ownedStep (map fromSol emitted) []) LEAF_IDX with
  | Some i =>
      exists lf path,
        nth_error (map fromSol emitted) i = Some lf
        /\ i < length (leaves (replay (hashesOf poseidon emitted)))
        /\ genMerklePath (replay (hashesOf poseidon emitted)) (Some i)
           = Ok path
        /\ proverInputs (trace (run env main l))
           = [witnessOf lf (Some i)
                (root (replay (hashesOf poseidon emitted)))
                TREASURY_PRIVKEY path]
  | None => proverInputs (trace (run env main l)) = []
  end.
Proof.
  rewrite reduce_ownedStep.
  rewrite (main_proverInputs l Hposeidon Hquery Hroot).
  rewrite afterReplay_proverInputs.
  destruct (nth_error (ownedFrom (map fromSol emitted) 0) LEAF_IDX)
    as [i|] eqn:Hsel.
  - pose proof (owned_in_history _ _ Hsel) as Hlt.
    destruct (nth_error (map fromSol emitted) i) as [lf|] eqn:Hlf;
      [|apply nth_error_None in Hlf; lia].
    assert (Hin : i < length (leaves (replay (hashesOf poseidon emitted)))).
    { rewrite replay_eq. unfold hashesOf. cbn [leaves].
      now rewrite length_map. }
    destruct (genMerklePath_inserted _ Hin) as [path Hpath].
    exists lf, path. rewrite Hpath. cbn [jsIndex]. rewrite Hlf. auto.
  - cbn [jsIndex]. now destruct (genMerklePath _ None).
Qed.


End SelectedLeaf.

(** ** How runs end past the ledger reads *)

Section EndsOfRuns.
Context {X : Externals}.
Variable env : Env.



(** X7.  With fewer than two owned records the entry point cannot prove:
    the one path request is for [undefined], neither the prover nor the
    verifier is called, and the run ends with an exception. *)
Theorem fewer_than_two_owned_never_proves (l : Ledger) (poseidon : Poseidon)
  (emitted : list SolLeaf) (onChain : Z)
  (Hposeidon : reply env BuildPoseidon l = Ok poseidon)
  (Hquery : reply env QueryFilterNewLeaf l = Ok emitted)
  (Hroot : reply env ContractRoot l = Ok onChain)
  (Hfew : length (reduce ownedStep (map fromSol emitted) []) < 2) :
  requestedPaths (trace (run env main l)) = [None]
  /\ countKind KProve (trace (run env main l)) = 0
  /\ countKind KVerify (trace (run env main l)) = 0
  /\ exists e, outcome (run env main l) = Threw e.
Proof.
  rewrite reduce_ownedStep in Hfew. apply fewer_than_two in Hfew.
  destruct (main_requestedPaths env l Hposeidon Hquery Hroot) as (Hp & _).
  rewrite Hfew in Hp.
  rewrite !(fun k => main_count env l k Hposeidon Hquery Hroot).
  rewrite (no_selection_outcome env l Hposeidon Hquery Hroot Hfew).
  rewrite (@run_afterReplay_undefined _ env l _ _ _ Hfew).
  split; [exact Hp|]. rewrite replay_eq. cbn [leaves].
  destruct (genPathUninserted _ None) as [path|e]; repeat split; eauto.
Qed.



End EndsOfRuns.

(** ** The local verifier and the submitter on their own *)

Section VerifierAndSubmitter.
Context {X : Externals}.
Variable env : Env.

(** X12.  When the verification key cannot be read or parsed,
    [proveSanityCheck] throws that exception and the verifier is not
    called. *)
Theorem proveSanityCheck_key_unavailable (l : Ledger)
  (prf : Groth16Proof) (pubSigs : WithdrawPubSignals) (e : JsError)
  (Hkey : reply env (ReadFileSync VERIF_KEY "utf8") l = Thrown e
          \/ exists text,
               reply env (ReadFileSync VERIF_KEY "utf8") l = Ok text
               /\ parseVKey text = Thrown e) :
  outcome (run env (proveSanityCheck prf pubSigs) l) = Threw e
  /\ countKind KVerify (trace (run env (proveSanityCheck prf pubSigs) l)) = 0
  /\ ledgerAfter (run env (proveSanityCheck prf pubSigs) l) = l.
Proof.
  unfold proveSanityCheck. simpl.
  destruct Hkey as [Hread|(text & Hread & Hparse)]; rewrite Hread; simpl.
  - repeat split.
  - rewrite Hparse. repeat split.
Qed.

(** X13.  [proveSanityCheck] is advisory: when the key is read and parsed
    and the verifier answers, it returns normally with the ledger unchanged
    for either verdict; the runs for true and for false differ in the one
    logged line. *)
Theorem proveSanityCheck_is_advisory (l : Ledger)
  (prf : Groth16Proof) (pubSigs : WithdrawPubSignals)
  (text : string) (vKey : VKey) (verdict : bool)
  (Hread : reply env (ReadFileSync VERIF_KEY "utf8") l = Ok text)
  (Hparse : parseVKey text = Ok vKey)
  (Hverify : reply env (Groth16Verify vKey pubSigs prf) l = Ok verdict) :
  run env (proveSanityCheck prf pubSigs) l
  = {| outcome := Returned tt;
       ledgerAfter := l;
       trace :=
         [EvLog [LStr "== Running sanity check, verifying proof client-side"];
          EvLog [LStr "- Proof:"; LProof prf];
          EvLog [LStr "- Public Signals:"; LSigs pubSigs];
          EvCall (ReadFileSync VERIF_KEY "utf8") (Ok text);
          EvCall (Groth16Verify vKey pubSigs prf) (Ok verdict);
          EvLog [LStr (if verdict then "- Verification OK"
                       else "- Invalid proof")];
          EvLog [LStr "=="]] |}.
Proof.
  unfold proveSanityCheck. simpl. rewrite Hread. simpl.
  rewrite Hparse. simpl. rewrite Hverify. now destruct verdict.
Qed.

(** X14.  When the balance reads, the calldata export and the transaction
    succeed, [sendProofTx] dispatches exactly one [withdraw], for the leaf
    index [LEAF_IDX] and the exported calldata unchanged, the ledger
    becomes the settled one, and the balance afterwards is read in that
    settled ledger. *)
Theorem sendProofTx_settles_once (l : Ledger)
  (prf : Groth16Proof) (pubSigs : WithdrawPubSignals)
  (before afterwards : Z) (cd : Groth16ProofCalldata) (tx : TxResult)
  (Hbefore : reply env SignerGetBalance l = Ok before)
  (Hexport : exportCallDataGroth16 prf pubSigs = Ok cd)
  (Hsend : reply env (ContractWithdraw LEAF_IDX (cd_a cd) (cd_b cd)
                        (cd_c cd) (cd_input cd)) l = Ok tx)
  (Hafter : reply env SignerGetBalance
              (settle env l LEAF_IDX (cd_a cd) (cd_b cd) (cd_c cd)
                 (cd_input cd)) = Ok afterwards) :
  run env (sendProofTx prf pubSigs) l
  = {| outcome := Returned tt;
       ledgerAfter := settle env l LEAF_IDX (cd_a cd) (cd_b cd) (cd_c cd)
                        (cd_input cd);
       trace :=
         [EvLog [LStr "== Sending tx with withdrawal proof"];
          EvCall SignerGetBalance (Ok before);
          EvLog [LStr "Manager balance BEFORE:"; LEther before];
          EvLog [LStr "Proof:"; LCalldata cd];
          EvCall (ContractWithdraw LEAF_IDX (cd_a cd) (cd_b cd) (cd_c cd)
                    (cd_input cd)) (Ok tx);
          EvLog [LTx tx];
          EvCall SignerGetBalance (Ok afterwards);
          EvLog [LStr "Manager balance AFTER:"; LEther afterwards];
          EvLog [LStr "=="]] |}.
Proof.
  unfold sendProofTx. simpl. rewrite Hbefore. simpl.
  rewrite Hexport. simpl. rewrite Hsend. simpl. rewrite Hafter. reflexivity.
Qed.

(** X15.  Whatever the answers, [sendProofTx] dispatches at most one
    [withdraw]: either none, and the ledger is as before, or one for
    [LEAF_IDX] with the exported calldata, and the ledger is as before
    (transaction rejected) or the settled one. *)
Theorem sendProofTx_ledger_dichotomy (l : Ledger)
  (prf : Groth16Proof) (pubSigs : WithdrawPubSignals) :
  (withdrawnIndices (trace (run env (sendProofTx prf pubSigs) l)) = []
   /\ ledgerAfter (run env (sendProofTx prf pubSigs) l) = l)
  \/ (withdrawnIndices (trace (run env (sendProofTx prf pubSigs) l))
      = [LEAF_IDX]
      /\ exists cd,
           exportCallDataGroth16 prf pubSigs = Ok cd
           /\ (ledgerAfter (run env (sendProofTx prf pubSigs) l) = l
               \/ ledgerAfter (run env (sendProofTx prf pubSigs) l)
                  = settle env l LEAF_IDX (cd_a cd) (cd_b cd) (cd_c cd)
                      (cd_input cd))).
Proof.
  unfold sendProofTx. simpl.
  destruct (reply env SignerGetBalance l) as [before|e]; simpl;
    [|left; auto].
  destruct (exportCallDataGroth16 prf pubSigs) as [cd|e]; simpl;
    [|left; auto].
  right.
  destruct (reply env (ContractWithdraw _ _ _ _ _) l) as [tx|e]; simpl.
  - destruct (reply env SignerGetBalance _) as [afterwards|e]; simpl;
      (split; [reflexivity|]); exists cd; auto.
  - split; [reflexivity|]. exists cd; auto.
Qed.

(** X16.  An exception from [sendProofTx] does not mean that nothing was
    withdrawn: when the transaction is accepted and the balance read that
    follows throws, [sendProofTx] throws with the withdrawal settled. *)
Theorem sendProofTx_may_throw_after_settlement (l : Ledger)
  (prf : Groth16Proof) (pubSigs : WithdrawPubSignals)
  (before : Z) (cd : Groth16ProofCalldata) (tx : TxResult) (e : JsError)
  (Hbefore : reply env SignerGetBalance l = Ok before)
  (Hexport : exportCallDataGroth16 prf pubSigs = Ok cd)
  (Hsend : reply env (ContractWithdraw LEAF_IDX (cd_a cd) (cd_b cd)
                        (cd_c cd) (cd_input cd)) l = Ok tx)
  (Hafter : reply env SignerGetBalance
              (settle env l LEAF_IDX (cd_a cd) (cd_b cd) (cd_c cd)
                 (cd_input cd)) = Thrown e) :
  outcome (run env (sendProofTx prf pubSigs) l) = Threw e
  /\ ledgerAfter (run env (sendProofTx prf pubSigs) l)
     = settle env l LEAF_IDX (cd_a cd) (cd_b cd) (cd_c cd) (cd_input cd)
  /\ withdrawnIndices (trace (run env (sendProofTx prf pubSigs) l))
     = [LEAF_IDX].
Proof.
  unfold sendProofTx. simpl. rewrite Hbefore. simpl.
  rewrite Hexport. simpl. rewrite Hsend. simpl. rewrite Hafter.
  repeat split.
Qed.

(** X17.  When the first balance read or the calldata export throws,
    [sendProofTx] throws that exception without dispatching [withdraw], and
    the ledger is as before. *)
Theorem sendProofTx_early_failure_sends_nothing (l : Ledger)
  (prf : Groth16Proof) (pubSigs : WithdrawPubSignals) (e : JsError)
  (Hearly : reply env SignerGetBalance l = Thrown e
            \/ exists before,
                 reply env SignerGetBalance l = Ok before
                 /\ exportCallDataGroth16 prf pubSigs = Thrown e) :
  outcome (run env (sendProofTx prf pubSigs) l) = Threw e
  /\ countKind KWithdraw (trace (run env (sendProofTx prf pubSigs) l)) = 0
  /\ ledgerAfter (run env (sendProofTx prf pubSigs) l) = l.
Proof.
  unfold sendProofTx. simpl.
  destruct Hearly as [Hbal|(before & Hbal & Hexport)]; rewrite Hbal; simpl.
  - repeat split.
  - rewrite Hexport. repeat split.
Qed.

(** X18.  When the transaction is rejected, [sendProofTx] throws that
    exception with the ledger as before, and the balance is not read a
    second time. *)
Theorem sendProofTx_rejected_transaction (l : Ledger)
  (prf : Groth16Proof) (pubSigs : WithdrawPubSignals)
  (before : Z) (cd : Groth16ProofCalldata) (e : JsError)
  (Hbefore : reply env SignerGetBalance l = Ok before)
  (Hexport : exportCallDataGroth16 prf pubSigs = Ok cd)
  (Hsend : reply env (ContractWithdraw LEAF_IDX (cd_a cd) (cd_b cd)
                        (cd_c cd) (cd_input cd)) l = Thrown e) :
  outcome (run env (sendProofTx prf pubSigs) l) = Threw e
  /\ ledgerAfter (run env (sendProofTx prf pubSigs) l) = l
  /\ countKind KWithdraw (trace (run env (sendProofTx prf pubSigs) l)) = 1
  /\ countKind KBalance (trace (run env (sendProofTx prf pubSigs) l)) = 1.
Proof.
  unfold sendProofTx. simpl. rewrite Hbefore. simpl.
  rewrite Hexport. simpl. rewrite Hsend. repeat split.
Qed.

End VerifierAndSubmitter.

(** ** The further properties on the concrete instance *)

Section FurtherInstances.
Import Demo.
Import Faults.
Local Existing Instance demoX.

Lemma retrieval_failure_stops_the_run_witness :
  reply (faultyEnv (Kind_eqb KQuery) true) QueryFilterNewLeaf agreeingLedger
  = Thrown callFailed
  /\ outcome (run (faultyEnv (Kind_eqb KQuery) true) main agreeingLedger)
     = Threw callFailed
  /\ countKind KRoot
       (trace (run (faultyEnv (Kind_eqb KQuery) true) main agreeingLedger))
     = 0.
Proof.
  split; [reflexivity|].
  destruct (retrieval_failure_stops_the_run
              (faultyEnv (Kind_eqb KQuery) true) agreeingLedger
              (poseidon := tt) (e := callFailed))
    as (_ & _ & Hout & Hroot & _); [reflexivity|reflexivity|].
  split; [exact Hout|exact Hroot].
Defined.

Lemma root_query_failure_stops_the_run_witness :
  reply (faultyEnv (Kind_eqb KRoot) true) ContractRoot agreeingLedger
  = Thrown callFailed
  /\ outcome (run (faultyEnv (Kind_eqb KRoot) true) main agreeingLedger)
     = Threw callFailed
  /\ countKind KGenPath
       (trace (run (faultyEnv (Kind_eqb KRoot) true) main agreeingLedger))
     = 0.
Proof.
  split; [reflexivity|].
  destruct (root_query_failure_stops_the_run
              (faultyEnv (Kind_eqb KRoot) true) agreeingLedger
              (poseidon := tt) (emitted := threeDeposits) (e := callFailed))
    as (_ & Hout & _ & Hpath & _); [reflexivity|reflexivity|reflexivity|].
  split; [exact Hout|exact Hpath].
Defined.

Lemma selection_survives_new_deposits_witness :
  requestedPaths (trace (run (demoEnv true) main agreeingLedger)) = [Some 2]
  /\ requestedPaths (trace (run (demoEnv true) main grownLedger)) = [Some 2]
  /\ provedIndices (trace (run (demoEnv true) main grownLedger)) = [Some 2].
Proof.
  assert (Hsel : requestedPaths
                   (trace (run (demoEnv true) main agreeingLedger))
                 = [Some 2]) by (vm_compute; reflexivity).
  split; [exact Hsel|].
  apply (@selection_survives_new_deposits demoX (demoEnv true)
           (demoEnv true) agreeingLedger grownLedger tt tt threeDeposits
           [(7, 1, 5); (3, 9, 40)]%Z localRoot3 0%Z 2);
    [reflexivity|reflexivity|reflexivity|reflexivity|reflexivity|reflexivity
    |exact Hsel].
Defined.

Lemma prover_input_wiring_witness :
  nth_error (reduce ownedStep (map fromSol threeDeposits) []) LEAF_IDX
  = Some 2
  /\ match nth_error (reduce ownedStep (map fromSol threeDeposits) [])
             LEAF_IDX with
     | Some i =>
         exists lf path,
           nth_error (map fromSol threeDeposits) i = Some lf
           /\ i < length (leaves (replay (hashesOf tt threeDeposits)))
           /\ genMerklePath (replay (hashesOf tt threeDeposits)) (Some i)
              = Ok path
           /\ proverInputs (trace (run (demoEnv true) main agreeingLedger))
              = [witnessOf lf (Some i)
                   (root (replay (hashesOf tt threeDeposits)))
                   TREASURY_PRIVKEY path]
     | None =>
         proverInputs (trace (run (demoEnv true) main agreeingLedger)) = []
     end.
Proof.
  split; [reflexivity|].
  apply (prover_input_wiring (demoEnv true) agreeingLedger
           (poseidon := tt) (emitted := threeDeposits)
           (onChain := localRoot3)); reflexivity.
Defined.


Lemma fewer_than_two_owned_never_proves_witness :
  length (reduce ownedStep (map fromSol (deposits oneOwnedLedger)) []) = 1
  /\ requestedPaths (trace (run (demoEnv true) main oneOwnedLedger)) = [None]
  /\ countKind KProve (trace (run (demoEnv true) main oneOwnedLedger)) = 0
  /\ countKind KVerify (trace (run (demoEnv true) main oneOwnedLedger)) = 0
  /\ exists e, outcome (run (demoEnv true) main oneOwnedLedger) = Threw e.
Proof.
  split; [reflexivity|].
  apply (fewer_than_two_owned_never_proves (demoEnv true) oneOwnedLedger
           (poseidon := tt) (emitted := deposits oneOwnedLedger)
           (onChain := 0%Z));
    [reflexivity|reflexivity|reflexivity|simpl; lia].
Defined.



Lemma proveSanityCheck_key_unavailable_witness :
  outcome (run (faultyEnv (Kind_eqb KReadFile) true)
             (proveSanityCheck 42%Z [1%Z]) agreeingLedger)
  = Threw callFailed
  /\ countKind KVerify
       (trace (run (faultyEnv (Kind_eqb KReadFile) true)
                 (proveSanityCheck 42%Z [1%Z]) agreeingLedger)) = 0
  /\ ledgerAfter (run (faultyEnv (Kind_eqb KReadFile) true)
                    (proveSanityCheck 42%Z [1%Z]) agreeingLedger)
     = agreeingLedger.
Proof.
  apply (proveSanityCheck_key_unavailable
           (faultyEnv (Kind_eqb KReadFile) true) agreeingLedger
           42%Z [1%Z] (e := callFailed)).
  left. reflexivity.
Defined.

Lemma proveSanityCheck_is_advisory_witness :
  outcome (run (demoEnv false) (proveSanityCheck 42%Z [1%Z]) agreeingLedger)
  = Returned tt.
Proof.
  rewrite (proveSanityCheck_is_advisory (demoEnv false) agreeingLedger
             (prf := 42%Z) (pubSigs := [1%Z]) (text := "{}") (vKey := "{}")
             (verdict := false)); reflexivity.
Defined.

Lemma sendProofTx_settles_once_witness :
  ledgerAfter (run (demoEnv true) (sendProofTx 42%Z [1%Z]) agreeingLedger)
  = {| deposits := threeDeposits; storedRoot := localRoot3;
       payouts := [LEAF_IDX] |}
  /\ outcome (run (demoEnv true) (sendProofTx 42%Z [1%Z]) agreeingLedger)
     = Returned tt.
Proof.
  rewrite (sendProofTx_settles_once (demoEnv true) agreeingLedger
             42%Z [1%Z] (before := 0%Z) (afterwards := 0%Z)
             (cd := {| cd_a := [42; 42]%Z;
                       cd_b := [[42; 42]; [42; 42]]%Z;
                       cd_c := [42; 42]%Z; cd_input := [1%Z] |})
             (tx := tt));
    try reflexivity.
  split; reflexivity.
Defined.

Lemma sendProofTx_may_throw_after_settlement_witness :
  outcome (run balanceLostAfterPayout (sendProofTx 42%Z [1%Z]) agreeingLedger)
  = Threw callFailed
  /\ payouts (ledgerAfter (run balanceLostAfterPayout
                              (sendProofTx 42%Z [1%Z]) agreeingLedger))
     = [LEAF_IDX].
Proof.
  destruct (sendProofTx_may_throw_after_settlement balanceLostAfterPayout
              agreeingLedger 42%Z [1%Z] (before := 0%Z)
              (cd := {| cd_a := [42; 42]%Z;
                        cd_b := [[42; 42]; [42; 42]]%Z;
                        cd_c := [42; 42]%Z; cd_input := [1%Z] |})
              (tx := tt) (e := callFailed))
    as (Hout & Hledger & _);
    [reflexivity|reflexivity|reflexivity|reflexivity|].
  split; [exact Hout|]. rewrite Hledger. reflexivity.
Defined.

Lemma sendProofTx_early_failure_sends_nothing_witness :
  outcome (run (faultyEnv (Kind_eqb KBalance) true)
             (sendProofTx 42%Z [1%Z]) agreeingLedger)
  = Threw callFailed
  /\ countKind KWithdraw
       (trace (run (faultyEnv (Kind_eqb KBalance) true)
                 (sendProofTx 42%Z [1%Z]) agreeingLedger)) = 0
  /\ ledgerAfter (run (faultyEnv (Kind_eqb KBalance) true)
                    (sendProofTx 42%Z [1%Z]) agreeingLedger)
     = agreeingLedger.
Proof.
  apply (sendProofTx_early_failure_sends_nothing
           (faultyEnv (Kind_eqb KBalance) true) agreeingLedger
           42%Z [1%Z] (e := callFailed)).
  left. reflexivity.
Defined.

Lemma sendProofTx_rejected_transaction_witness :
  outcome (run (faultyEnv (Kind_eqb KWithdraw) true)
             (sendProofTx 42%Z [1%Z]) agreeingLedger)
  = Threw callFailed
  /\ ledgerAfter (run (faultyEnv (Kind_eqb KWithdraw) true)
                    (sendProofTx 42%Z [1%Z]) agreeingLedger)
     = agreeingLedger
  /\ countKind KWithdraw
       (trace (run (faultyEnv (Kind_eqb KWithdraw) true)
                 (sendProofTx 42%Z [1%Z]) agreeingLedger)) = 1
  /\ countKind KBalance
       (trace (run (faultyEnv (Kind_eqb KWithdraw) true)
                 (sendProofTx 42%Z [1%Z]) agreeingLedger)) = 1.
Proof.
  apply (sendProofTx_rejected_transaction
           (faultyEnv (Kind_eqb KWithdraw) true) agreeingLedger
           42%Z [1%Z] (before := 0%Z)
           (cd := {| cd_a := [42; 42]%Z;
                     cd_b := [[42; 42]; [42; 42]]%Z;
                     cd_c := [42; 42]%Z; cd_input := [1%Z] |})
           (e := callFailed)); reflexivity.
Defined.

End FurtherInstances.
